(** * The comic page of the storyboard front end

    A shallow embedding of [front_end/src/app/(main)/comic/page.tsx]: the
    React component [ComicPage] with its state hooks, its handlers
    ([handleGenerate], [handleDownload], [openViewer], [handleViewerChange]),
    its [useEffect], and the conditions under which the JSX renders and
    enables each control.

    JavaScript strings are sequences of UTF-16 code units, numbers that
    the component uses as indices are integers ([Z]), component state is
    a record, and everything the component does to the outside (calls of
    the generator, of the [URL] object, of the AppContext setters, of the
    console) is recorded in an ordered log. *)

From Stdlib Require Import ZArith NArith List Lia Bool.
From Stdlib Require Import Strings.String Strings.Ascii Numbers.DecimalString.
From stdpp Require Import base decidable option list numbers fin.
Import ListNotations.

Local Open Scope Z_scope.

(** ** JavaScript strings *)

Module JsString.

(** A string is its sequence of UTF-16 code units. *)
Definition t := list N.

(** Literals of the source, all of them ASCII. *)
Definition js (s : string) : t := map N_of_ascii (list_ascii_of_string s).
Arguments js s%_string.

(** The decimal text of an integer, as [`${n}`] prints it. *)
Definition ofZ (n : Z) : t := js (NilZero.string_of_int (Z.to_int n)).

(** ECMAScript [WhiteSpace] and [LineTerminator] code points, the ones
    [String.prototype.trim] strips. *)
Definition isWhiteSpace (c : N) : bool :=
  existsb (N.eqb c)
    [0x0009; 0x000A; 0x000B; 0x000C; 0x000D; 0x0020; 0x00A0; 0x1680;
     0x2000; 0x2001; 0x2002; 0x2003; 0x2004; 0x2005; 0x2006; 0x2007;
     0x2008; 0x2009; 0x200A; 0x2028; 0x2029; 0x202F; 0x205F; 0x3000;
     0xFEFF]%N.

Fixpoint trimStart (s : t) : t :=
  match s with
  | c :: s' => if isWhiteSpace c then trimStart s' else s
  | [] => []
  end.

Definition trimEnd (s : t) : t := rev (trimStart (rev s)).

(** [s.trim()] *)
Definition trim (s : t) : t := trimEnd (trimStart s).

(** [s.startsWith(p)] *)
Fixpoint startsWith (p s : t) : bool :=
  match p, s with
  | [], _ => true
  | a :: p', b :: s' => N.eqb a b && startsWith p' s'
  | _ :: _, [] => false
  end.

(** A string is falsy exactly when it is empty. *)
Definition truthy (s : t) : bool :=
  match s with [] => false | _ :: _ => true end.

(** [a || b] on strings. *)
Definition or_else (a b : t) : t := if truthy a then a else b.

Definition isDigit (c : N) : bool := (48 <=? c)%N && (c <=? 57)%N.
Definition isUpper (c : N) : bool := (65 <=? c)%N && (c <=? 90)%N.
Definition isLower (c : N) : bool := (97 <=? c)%N && (c <=? 122)%N.

(** The code units the class [[a-z0-9]] matches under the [i] flag.  The
    pattern has no [u] flag, so case folding never maps a code unit
    above 127 to an ASCII one: only ASCII letters and digits match. *)
Definition isAlnum (c : N) : bool := isDigit c || isUpper c || isLower c.

Definition dash : N := 45%N.

(** [s.replace(/[^a-z0-9]+/gi, "-")]: scanning from the left, every
    maximal run of code units outside the class is one match (the [+]
    is greedy and the [g] flag resumes after the match) and is replaced
    by one ["-"]; [inRun] says that the match in progress has already
    been replaced. *)
Fixpoint replaceRunsFrom (inRun : bool) (s : t) : t :=
  match s with
  | [] => []
  | c :: s' =>
      if isAlnum c then c :: replaceRunsFrom false s'
      else if inRun then replaceRunsFrom true s'
      else dash :: replaceRunsFrom true s'
  end.

Definition replaceNonAlnumRuns (s : t) : t := replaceRunsFrom false s.

(** [toLowerCase] on one code unit of the ASCII range. *)
Definition lowerUnit (c : N) : N := if isUpper c then (c + 32)%N else c.

(** [s.toLowerCase()], for strings of ASCII code units: the component
    applies it to the output of [replaceNonAlnumRuns] only, which holds
    nothing else (lemma [replaceNonAlnumRuns_ascii]). *)
Definition toLowerCase (s : t) : t := map lowerUnit s.

End JsString.

Import JsString.
Abbreviation jsstring := JsString.t.

(** ** Data held by the AppContext *)

(** The type [1 | 2] of a page count. *)
Inductive PageCount := One | Two.

(** Modelled from the spec: the declaration of [ComicSessionData] (in
    [contexts/AppContext]) and of its page type is not in the source; a
    page has the three fields the component reads, [title] optional. *)
Record Page := {
  pageNumber : Z;
  imageUrl : jsstring;
  title : option jsstring
}.

Module Session.
Record t := {
  id : jsstring;
  storyIdea : jsstring;
  pagesRequested : PageCount;
  pages : list Page;
  gradientFrom : jsstring;
  gradientTo : jsstring
}.
End Session.
Abbreviation ComicSession := Session.t.

#[global] Instance PageCount_eq_dec : EqDecision PageCount.
Proof. solve_decision. Defined.
#[global] Instance Page_eq_dec : EqDecision Page.
Proof. solve_decision. Defined.
#[global] Instance Session_eq_dec : EqDecision ComicSession.
Proof. solve_decision. Defined.

(** [xs[i]] for a number [i] that is an integer: [undefined] ([None])
    outside of the array. *)
Definition at_index {A} (xs : list A) (i : Z) : option A :=
  if i <? 0 then None else xs !! Z.to_nat i.

(** ** The gradient palette *)

Record Gradient := { from : jsstring; to : jsstring }.

Definition gradientPalette : list Gradient :=
  [ {| from := js "#fddb92"; to := js "#d1fdff" |};
    {| from := js "#f6d365"; to := js "#fda085" |};
    {| from := js "#a1c4fd"; to := js "#c2e9fb" |};
    {| from := js "#ffecd2"; to := js "#fcb69f" |};
    {| from := js "#fccb90"; to := js "#d57eeb" |};
    {| from := js "#f9d423"; to := js "#ff4e50" |} ].

(** [pickGradient]: [%] is the remainder that takes the sign of the
    dividend; reading [.from] of an [undefined] entry throws, which is
    [None] here. *)
Definition pickGradient (index : Z) : option Gradient :=
  match at_index gradientPalette
          (Z.rem index (Z.of_nat (length gradientPalette))) with
  | Some palette => Some {| from := from palette; to := to palette |}
  | None => None
  end.

(** ** What the component does to the outside *)

(** The object literal that [handleDownload] serialises. *)
Module Payload.
Record t := { story : jsstring; pages : list Page }.
End Payload.

(** [JSON.stringify(value, null, space)].  The text is not written out:
    the order of the properties of a page is fixed where pages are
    created, in the generator, which is not part of the source. *)
Inductive BlobPart := JSON_stringify (value : Payload.t) (space : Z).

Record Blob := { blobParts : list BlobPart; blobType : jsstring }.

Inductive Effect :=
| GenerateComic (story : jsstring) (count : PageCount)
| RevokeObjectURL (url : jsstring)
| CreateObjectURL (blob : Blob) (url : jsstring)
| LinkClick (href download : jsstring)
| SetComicSession (value : ComicSession)
| AddToComicHistory (story : jsstring)
| ConsoleError (message : jsstring) (error : jsstring).

(** ** State *)

(** A call of [handleGenerate] suspended at its [await]: the variables
    of its closure that the rest of the body reads.  [callSession] is
    the [comicSession] of the render whose handler made the call. *)
Record Call := {
  callStory : jsstring;
  callCount : PageCount;
  callSession : option ComicSession
}.

Record State := {
  (* useState *)
  storyIdea : jsstring;
  pagesRequested : PageCount;
  isGenerating : bool;
  isDialogOpen : bool;
  activePageIndex : Z;
  (* useAppContext *)
  comicSession : option ComicSession;
  (* suspended calls of handleGenerate, oldest first *)
  inFlight : list Call;
  (* everything done to the outside, oldest first *)
  log : list Effect
}.

Definition setStoryIdea (v : jsstring) (st : State) : State :=
  {| storyIdea := v; pagesRequested := pagesRequested st;
     isGenerating := isGenerating st; isDialogOpen := isDialogOpen st;
     activePageIndex := activePageIndex st; comicSession := comicSession st;
     inFlight := inFlight st; log := log st |}.

Definition setPagesRequested (v : PageCount) (st : State) : State :=
  {| storyIdea := storyIdea st; pagesRequested := v;
     isGenerating := isGenerating st; isDialogOpen := isDialogOpen st;
     activePageIndex := activePageIndex st; comicSession := comicSession st;
     inFlight := inFlight st; log := log st |}.

Definition setIsGenerating (v : bool) (st : State) : State :=
  {| storyIdea := storyIdea st; pagesRequested := pagesRequested st;
     isGenerating := v; isDialogOpen := isDialogOpen st;
     activePageIndex := activePageIndex st; comicSession := comicSession st;
     inFlight := inFlight st; log := log st |}.

Definition setIsDialogOpen (v : bool) (st : State) : State :=
  {| storyIdea := storyIdea st; pagesRequested := pagesRequested st;
     isGenerating := isGenerating st; isDialogOpen := v;
     activePageIndex := activePageIndex st; comicSession := comicSession st;
     inFlight := inFlight st; log := log st |}.

Definition setActivePageIndex (v : Z) (st : State) : State :=
  {| storyIdea := storyIdea st; pagesRequested := pagesRequested st;
     isGenerating := isGenerating st; isDialogOpen := isDialogOpen st;
     activePageIndex := v; comicSession := comicSession st;
     inFlight := inFlight st; log := log st |}.

Definition setInFlight (v : list Call) (st : State) : State :=
  {| storyIdea := storyIdea st; pagesRequested := pagesRequested st;
     isGenerating := isGenerating st; isDialogOpen := isDialogOpen st;
     activePageIndex := activePageIndex st; comicSession := comicSession st;
     inFlight := v; log := log st |}.

(** Appends one entry to the log. *)
Definition emit (e : Effect) (st : State) : State :=
  {| storyIdea := storyIdea st; pagesRequested := pagesRequested st;
     isGenerating := isGenerating st; isDialogOpen := isDialogOpen st;
     activePageIndex := activePageIndex st; comicSession := comicSession st;
     inFlight := inFlight st; log := log st ++ [e] |}.

(** Modelled from the spec: the AppContext provider is not in the
    source; it holds the session (get, set) and the next render reads
    what was stored.  This is a store that is not made by the component
    (another consumer of the context, or the provider). *)
Definition storeSession (v : option ComicSession) (st : State) : State :=
  {| storyIdea := storyIdea st; pagesRequested := pagesRequested st;
     isGenerating := isGenerating st; isDialogOpen := isDialogOpen st;
     activePageIndex := activePageIndex st; comicSession := v;
     inFlight := inFlight st; log := log st |}.

(** [setComicSession(value)] of the context, called by the component. *)
Definition setComicSession (value : ComicSession) (st : State) : State :=
  storeSession (Some value) (emit (SetComicSession value) st).

(** Modelled from the spec: [addToComicHistory(story)] of the context
    records the prompt in an append-only history; here it is the call
    that is recorded. *)
Definition addToComicHistory (story : jsstring) (st : State) : State :=
  emit (AddToComicHistory story) st.

(** The state of a freshly mounted component over a context that holds
    [session]. *)
Definition mounted (session : option ComicSession) : State :=
  {| storyIdea := []; pagesRequested := One;
     isGenerating := false; isDialogOpen := false;
     activePageIndex := 0; comicSession := session;
     inFlight := []; log := [] |}.

(** *** Reading the log *)

Definition historyOf (l : list Effect) : list jsstring :=
  omap (fun e => match e with AddToComicHistory s => Some s | _ => None end) l.

Definition revokedOf (l : list Effect) : list jsstring :=
  omap (fun e => match e with RevokeObjectURL u => Some u | _ => None end) l.

Definition generatorCallsOf (l : list Effect) : list (jsstring * PageCount) :=
  omap (fun e => match e with GenerateComic s c => Some (s, c) | _ => None end) l.

Definition installedOf (l : list Effect) : list ComicSession :=
  omap (fun e => match e with SetComicSession s => Some s | _ => None end) l.

(** ** The handlers of [ComicPage] *)

Definition isBlobUrl (url : jsstring) : bool := startsWith (js "blob:") url.

(** The body of the [forEach] callback of [releaseSessionResources]. *)
Definition releasePage (st : State) (page : Page) : State :=
  if isBlobUrl (imageUrl page) then emit (RevokeObjectURL (imageUrl page)) st
  else st.

Definition releaseSessionResources (value : option ComicSession) (st : State)
  : State :=
  match value with
  | None => st
  | Some v => fold_left releasePage (Session.pages v) st
  end.

(** [handleGenerate] up to its [await]: the call of the generator is
    made and the body is suspended. *)
Definition handleGenerate (idea : option jsstring) (pageCount : option PageCount)
    (st : State) : State :=
  let story := trim (default (storyIdea st) idea) in
  let count := default (pagesRequested st) pageCount in
  if negb (truthy story) then st
  else
    let st := setIsGenerating true st in
    let st := emit (GenerateComic story count) st in
    setInFlight
      (inFlight st ++
         [{| callStory := story; callCount := count;
             callSession := comicSession st |}]) st.

(** How the promise of the generator settles.  On fulfilment the body
    goes on to read [Math.floor(Math.random() * gradientPalette.length)],
    one of the six indices of the palette, and [Date.now()]. *)
Inductive Settlement :=
| Fulfilled (comic : list Page) (gradientIndex : fin 6) (now : Z)
| Rejected (error : jsstring).

Definition failedMessage : jsstring := js "Failed to generate comic:".

(** The error of reading [.from] of [undefined]. *)
Definition typeError : jsstring := js "TypeError".

(** The [try] block of [handleGenerate] after the [await]; [inr error]
    when it throws. *)
Definition generateTry (c : Call) (comic : list Page) (gradientIndex : fin 6)
    (now : Z) (st : State) : State + (State * jsstring) :=
  match pickGradient (Z.of_nat (fin_to_nat gradientIndex)) with
  | None => inr (st, typeError)
  | Some g =>
      let st :=
        match callSession c with
        | Some _ => releaseSessionResources (callSession c) st
        | None => st
        end in
      let newSession :=
        {| Session.id := ofZ now;
           Session.storyIdea := callStory c;
           Session.pagesRequested := callCount c;
           Session.pages := comic;
           Session.gradientFrom := from g;
           Session.gradientTo := to g |} in
      let st := setComicSession newSession st in
      let st := addToComicHistory (callStory c) st in
      let st := setStoryIdea [] st in
      inl (setActivePageIndex 0 st)
  end.

(** [handleGenerate] from its [await] on: [try], [catch], [finally]. *)
Definition handleGenerateResume (c : Call) (r : Settlement) (st : State)
  : State :=
  let st :=
    match r with
    | Fulfilled comic gradientIndex now =>
        match generateTry c comic gradientIndex now st with
        | inl st => st
        | inr (st, error) => emit (ConsoleError failedMessage error) st
        end
    | Rejected error => emit (ConsoleError failedMessage error) st
    end in
  setIsGenerating false st.

(** The body of the [useEffect]. *)
Definition viewerEffect (st : State) : State :=
  match comicSession st with
  | None => setIsDialogOpen false st
  | Some s =>
      if activePageIndex st >? Z.of_nat (length (Session.pages s)) - 1
      then setActivePageIndex 0 st
      else st
  end.

Definition safeName (prompt : jsstring) : jsstring :=
  or_else (toLowerCase (replaceNonAlnumRuns prompt)) (js "comic").

(** [`${safeName}.json`] *)
Definition downloadName (prompt : jsstring) : jsstring :=
  safeName prompt ++ js ".json".

Definition exportBlob (session : ComicSession) : Blob :=
  {| blobParts :=
       [JSON_stringify {| Payload.story := Session.storyIdea session;
                          Payload.pages := Session.pages session |} 2];
     blobType := js "application/json" |}.

(** [handleDownload]; [url] is what [URL.createObjectURL] returns. *)
Definition handleDownload (url : jsstring) (st : State) : State :=
  match comicSession st with
  | None => st
  | Some session =>
      if (length (Session.pages session) =? 0)%nat then st
      else
        let st := emit (CreateObjectURL (exportBlob session) url) st in
        let st :=
          emit (LinkClick url (downloadName (Session.storyIdea session))) st in
        emit (RevokeObjectURL url) st
  end.

Definition openViewer (index : Z) (st : State) : State :=
  match comicSession st with
  | None => st
  | Some _ => setIsDialogOpen true (setActivePageIndex index st)
  end.

Inductive Direction := prev | next.

(** The updater that [handleViewerChange] passes to
    [setActivePageIndex]. *)
Definition viewerIndex (direction : Direction) (total : Z) (previous : Z) : Z :=
  match direction with
  | prev => if previous =? 0 then total - 1 else previous - 1
  | next => if previous =? total - 1 then 0 else previous + 1
  end.

Definition handleViewerChange (direction : Direction) (st : State) : State :=
  match comicSession st with
  | None => st
  | Some session =>
      setActivePageIndex
        (viewerIndex direction (Z.of_nat (length (Session.pages session)))
           (activePageIndex st)) st
  end.

(** ** The rendered page as a transition system *)

(** What the user, the generator and the rest of the application can
    do to the mounted component. *)
Inductive Event :=
| TypeStory (value : jsstring)        (* the textarea's onChange *)
| ClickExample (k : nat)              (* an example under the textarea *)
| ClickQuickPrompt (k : nat)          (* a quick prompt of the highlight card *)
| ClickPageCount (count : PageCount)
| ClickGenerate                       (* the "Generate comic" button *)
| GeneratorSettles (k : nat) (r : Settlement)  (* the k-th suspended call *)
| ClickSessionCard
| ClickPagePreview (k : nat)
| ClickExport (url : jsstring)
| ClickNav (direction : Direction)    (* the arrows of the dialog *)
| DialogOpenChange (open : bool)      (* the dialog's onOpenChange *)
| ContextStores (value : option ComicSession).

(** The [open] property of the dialog. *)
Definition viewerOpen (st : State) : bool :=
  isDialogOpen st && bool_decide (is_Some (comicSession st)).

(** The [disabled] property of the "Generate comic" button. *)
Definition generateDisabled (st : State) : bool :=
  isGenerating st || negb (truthy (trim (storyIdea st))).

(** The arrows are rendered inside the open dialog when the active
    page exists and the session has more than one page. *)
Definition navRendered (st : State) : bool :=
  viewerOpen st &&
  match comicSession st with
  | Some session =>
      bool_decide (is_Some (at_index (Session.pages session) (activePageIndex st)))
      && (1 <? length (Session.pages session))%nat
  | None => false
  end.

(** Removes the [k]-th element. *)
Definition remove_at {A} (k : nat) (xs : list A) : list A :=
  take k xs ++ drop (S k) xs.

Section Page.

(** The value of [getComicExamples()], which is not part of the source. *)
Variable exampleStories : list jsstring.

(** The handler that an event runs; an event on a control that is not
    rendered, or is disabled, runs nothing. *)
Definition dispatch (ev : Event) (st : State) : State :=
  match ev with
  | TypeStory value => setStoryIdea value st
  | ClickExample k =>
      match take 3 exampleStories !! k with
      | Some story => setStoryIdea story st
      | None => st
      end
  | ClickQuickPrompt k =>
      match take 2 exampleStories !! k with
      | Some story => handleGenerate (Some story) None st
      | None => st
      end
  | ClickPageCount count => setPagesRequested count st
  | ClickGenerate =>
      if generateDisabled st then st else handleGenerate None None st
  | GeneratorSettles k r =>
      match inFlight st !! k with
      | Some c => handleGenerateResume c r (setInFlight (remove_at k (inFlight st)) st)
      | None => st
      end
  | ClickSessionCard => openViewer 0 st
  | ClickPagePreview k =>
      match comicSession st with
      | Some session =>
          match Session.pages session !! k with
          | Some page => openViewer (pageNumber page - 1) st
          | None => st
          end
      | None => st
      end
  | ClickExport url => handleDownload url st
  | ClickNav direction =>
      if navRendered st then handleViewerChange direction st else st
  | DialogOpenChange open => setIsDialogOpen open st
  | ContextStores value => storeSession value st
  end.

(** The dependencies of the [useEffect] differ between two renders. *)
Definition depsChanged (before after : State) : bool :=
  negb (bool_decide (comicSession before = comicSession after)
        && (activePageIndex before =? activePageIndex after)).

(** The render that follows a handler: the effect runs when one of its
    dependencies changed, and again if it changed one itself. *)
Definition commit (before after : State) : State :=
  if depsChanged before after then
    let st := viewerEffect after in
    if depsChanged after st then viewerEffect st else st
  else after.

Definition step (st : State) (ev : Event) : State :=
  commit st (dispatch ev st).

Definition run (st : State) (evs : list Event) : State :=
  fold_left step evs st.

End Page.

(** ** Vocabulary of the properties *)

(** Appends several entries to the log. *)
Definition emitAll (es : list Effect) (st : State) : State :=
  {| storyIdea := storyIdea st; pagesRequested := pagesRequested st;
     isGenerating := isGenerating st; isDialogOpen := isDialogOpen st;
     activePageIndex := activePageIndex st; comicSession := comicSession st;
     inFlight := inFlight st; log := log st ++ es |}.

(** The URLs that [releaseSessionResources] hands to
    [URL.revokeObjectURL], one per page that holds a blob URL. *)
Definition blobUrls (ps : list Page) : list jsstring :=
  filter (fun u => isBlobUrl u = true) (map imageUrl ps).

(** The session that a fulfilled call builds. *)
Definition sessionOf (c : Call) (comic : list Page) (g : Gradient) (now : Z)
  : ComicSession :=
  {| Session.id := ofZ now;
     Session.storyIdea := callStory c;
     Session.pagesRequested := callCount c;
     Session.pages := comic;
     Session.gradientFrom := from g;
     Session.gradientTo := to g |}.

(** What a fulfilled call logs: the releases of the session of its
    closure, then the installation, then the history entry. *)
Definition fulfilledLog (c : Call) (new : ComicSession) : list Effect :=
  map RevokeObjectURL
      (from_option (fun v => blobUrls (Session.pages v)) [] (callSession c))
  ++ [SetComicSession new; AddToComicHistory (callStory c)].

(** The [download] attributes of the links that were clicked. *)
Definition downloadsOf (l : list Effect) : list jsstring :=
  omap (fun e => match e with LinkClick _ d => Some d | _ => None end) l.

(** The maximal runs of a string: consecutive code units that agree on
    [p], each run with the value of [p] on it. *)
Fixpoint runs (p : N -> bool) (s : jsstring) : list (bool * jsstring) :=
  match s with
  | [] => []
  | c :: s' =>
      match runs p s' with
      | (b, r) :: rest =>
          if Bool.eqb (p c) b then (b, c :: r) :: rest
          else (p c, [c]) :: (b, r) :: rest
      | [] => [(p c, [c])]
      end
  end.

(** A run of letters and digits in lower case; one separator for a run
    of anything else. *)
Definition slugOfRun (run : bool * jsstring) : jsstring :=
  if fst run then toLowerCase (snd run) else [dash].

(** The slug as the contract of the exporter words it: lower case,
    every run of characters that are not letters or digits collapsed
    to a single separator. *)
Definition slug (prompt : jsstring) : jsstring :=
  concat (map slugOfRun (runs isAlnum prompt)).

(** In a list of runs, neighbours differ on [p]. *)
Fixpoint alternating (rs : list (bool * jsstring)) : Prop :=
  match rs with
  | (b, _) :: (((b', _) :: _) as rest) => b <> b' /\ alternating rest
  | _ => True
  end.

(** Page numbers count from 1. *)
Definition wellNumbered (ps : list Page) : Prop :=
  Forall (fun page => 1 <= pageNumber page) ps.

Definition sessionNumbered (value : option ComicSession) : Prop :=
  from_option (fun s => wellNumbered (Session.pages s)) True value.

(** The pages that an event brings in are numbered from 1. *)
Definition eventNumbered (ev : Event) : Prop :=
  match ev with
  | GeneratorSettles _ (Fulfilled comic _ _) => wellNumbered comic
  | ContextStores value => sessionNumbered value
  | _ => True
  end.

(** The index is no page of the session only when it is 0 over a
    session without pages. *)
Definition indexSettled (st : State) : Prop :=
  0 <= activePageIndex st /\
  match comicSession st with
  | Some s =>
      activePageIndex st <= Z.of_nat (length (Session.pages s)) - 1 \/
      activePageIndex st = 0
  | None => True
  end.

Definition viewerInvariant (st : State) : Prop :=
  sessionNumbered (comicSession st) /\ indexSettled st.

(** ** Sample data *)

Definition samplePage (n : Z) (url : jsstring) : Page :=
  {| pageNumber := n; imageUrl := url; title := None |}.

Definition sampleStories : list jsstring :=
  [js "A tomato plant in space"; js "Mice aboard the station"].

(** A session with one blob page and one remote page. *)
Definition sampleSession : ComicSession :=
  {| Session.id := js "1700000000000";
     Session.storyIdea := js "Tom & Jerry!!";
     Session.pagesRequested := Two;
     Session.pages := [samplePage 1 (js "blob:a"); samplePage 2 (js "https://cdn/p2.png")];
     Session.gradientFrom := js "#fddb92";
     Session.gradientTo := js "#d1fdff" |}.

(** The page right after a click on the first quick prompt. *)
Definition sampleBusy : State :=
  step sampleStories (mounted (Some sampleSession)) (ClickQuickPrompt 0).

Definition sampleCall : Call :=
  {| callStory := js "A tomato plant in space"; callCount := One;
     callSession := Some sampleSession |}.

Definition eightPages : list Page :=
  map (fun n => samplePage n (js "blob:n")) [1; 2; 3; 4; 5; 6; 7; 8].

(** The viewer on the last of three pages. *)
Definition sampleViewer : State :=
  let session :=
    {| Session.id := js "1700000000000";
       Session.storyIdea := js "Mice aboard the station";
       Session.pagesRequested := Two;
       Session.pages :=
         [samplePage 1 (js "blob:p1"); samplePage 2 (js "blob:p2");
          samplePage 3 (js "blob:p3")];
       Session.gradientFrom := js "#fddb92";
       Session.gradientTo := js "#d1fdff" |} in
  step sampleStories (mounted (Some session)) (ClickPagePreview 2).

(** A session whose prompt has no letter and no digit. *)
Definition punctuationSession : ComicSession :=
  {| Session.id := js "1700000000001";
     Session.storyIdea := js "!!!";
     Session.pagesRequested := One;
     Session.pages := [samplePage 1 (js "blob:q")];
     Session.gradientFrom := js "#fddb92";
     Session.gradientTo := js "#d1fdff" |}.

(** The fulfilment of two suspended calls, oldest first. *)
Definition reentrantSettlements : list Event :=
  [GeneratorSettles 0 (Fulfilled [samplePage 1 (js "blob:b")] 0%fin 1700000000100);
   GeneratorSettles 0 (Fulfilled [samplePage 1 (js "blob:c")] 1%fin 1700000000200)].

(** Two clicks on quick prompts over [sampleSession], whose first page
    holds blob:a; the first call is fulfilled with a page that holds
    blob:b, the second with a page that holds blob:c. *)
Definition overlappingGenerations : list Event :=
  [ClickQuickPrompt 0; ClickQuickPrompt 1] ++ reentrantSettlements.

(** ** The cards and the dialog *)

Record Highlight := {
  highlightId : jsstring;
  highlightTitle : jsstring;
  highlightSummary : jsstring;
  highlightGradientFrom : jsstring;
  highlightGradientTo : jsstring
}.

(** The constant [highlightCard]; the dash of its summary is U+2014. *)
Definition highlightCard : Highlight :=
  {| highlightId := js "highlight";
     highlightTitle := js "Mission storyboard";
     highlightSummary :=
       js "Curated layouts from the NASA Space Apps vault " ++ [0x2014%N] ++
       js " explore panel pacing, framing, and cosmic palettes.";
     highlightGradientFrom := js "#3023ae";
     highlightGradientTo := js "#c86dd7" |}.

(** The union type of the elements of [cardsToShow]. *)
Inductive Card :=
| SessionCard (data : ComicSession)
| HighlightCard (data : Highlight).

(** The array [cardsToShow] once both [push] statements have run. *)
Definition cardsToShow (session : option ComicSession) : list Card :=
  (match session with
   | Some s => [SessionCard s]
   | None => []
   end) ++ [HighlightCard highlightCard].

(** [cardsToShow.slice(0, 2)] *)
Definition limitedCards (session : option ComicSession) : list Card :=
  take 2 (cardsToShow session).

(** The guard [session && session.pages[activePageIndex]] of the
    content of the dialog. *)
Definition dialogContentRendered (st : State) : bool :=
  match comicSession st with
  | Some session =>
      bool_decide (is_Some (at_index (Session.pages session) (activePageIndex st)))
  | None => false
  end.

(** ** More vocabulary *)

(** The URLs that [URL.createObjectURL] returned. *)
Definition createdOf (l : list Effect) : list jsstring :=
  omap (fun e => match e with CreateObjectURL _ u => Some u | _ => None end) l.

(** The events of the form and of the viewer. *)
Definition formOrViewerEvent (ev : Event) : bool :=
  match ev with
  | TypeStory _ | ClickExample _ | ClickPageCount _ | ClickSessionCard
  | ClickPagePreview _ | ClickNav _ | DialogOpenChange _ => true
  | _ => false
  end.

(** Not a click on a quick prompt. *)
Definition notQuickPrompt (ev : Event) : Prop :=
  match ev with ClickQuickPrompt _ => False | _ => True end.

(** Not a store of the session from outside the component. *)
Definition notContextStore (ev : Event) : Prop :=
  match ev with ContextStores _ => False | _ => True end.

(** A prompt as [handleGenerate] passes it on: not empty, and without
    white space around it. *)
Definition cleanPrompt (s : jsstring) : Prop := s <> [] /\ trim s = s.

(** The code units of a file name that needs no quoting. *)
Definition slugUnit (c : N) : bool := isLower c || isDigit c || N.eqb c dash.

(** No two separators in a row. *)
Fixpoint noDoubleDash (s : jsstring) : Prop :=
  match s with
  | a :: ((b :: _) as s') => ~ (a = dash /\ b = dash) /\ noDoubleDash s'
  | _ => True
  end.

(** The blob URLs that a session holds. *)
Definition sessionBlobs (value : option ComicSession) : list jsstring :=
  from_option (fun v => blobUrls (Session.pages v)) [] value.

(** The session of [sampleViewer]. *)
Definition sampleSessionOfViewer : ComicSession :=
  {| Session.id := js "1700000000000";
     Session.storyIdea := js "Mice aboard the station";
     Session.pagesRequested := Two;
     Session.pages :=
       [samplePage 1 (js "blob:p1"); samplePage 2 (js "blob:p2");
        samplePage 3 (js "blob:p3")];
     Session.gradientFrom := js "#fddb92";
     Session.gradientTo := js "#d1fdff" |}.

(** The viewer on the first of the three pages of [sampleViewer]. *)
Definition sampleViewerStart : State :=
  step sampleStories sampleViewer ClickSessionCard.

(** What one event, render included, changes of the session, the
    busy flag, the suspended calls and the log: nothing, or the
    session by a store from outside, or what the start, the fulfilment
    or the rejection of a call or an export change. *)
Inductive Change (ev : Event) (st st' : State) : Prop :=
| ChangeNothing :
    notContextStore ev ->
    log st' = log st -> inFlight st' = inFlight st ->
    isGenerating st' = isGenerating st -> comicSession st' = comicSession st ->
    Change ev st st'
| ChangeStored value :
    ev = ContextStores value ->
    log st' = log st -> inFlight st' = inFlight st ->
    isGenerating st' = isGenerating st -> comicSession st' = value ->
    Change ev st st'
| ChangeStarted story count :
    (ev = ClickGenerate /\ isGenerating st = false) \/
    (exists k, ev = ClickQuickPrompt k) ->
    cleanPrompt story ->
    log st' = log st ++ [GenerateComic story count] ->
    inFlight st' = inFlight st ++
      [{| callStory := story; callCount := count;
          callSession := comicSession st |}] ->
    isGenerating st' = true -> comicSession st' = comicSession st ->
    Change ev st st'
| ChangeFulfilled k c new :
    inFlight st !! k = Some c ->
    Session.storyIdea new = callStory c ->
    log st' = log st ++ fulfilledLog c new ->
    inFlight st' = remove_at k (inFlight st) ->
    isGenerating st' = false -> comicSession st' = Some new ->
    Change ev st st'
| ChangeRejected k c error :
    inFlight st !! k = Some c ->
    log st' = log st ++ [ConsoleError failedMessage error] ->
    inFlight st' = remove_at k (inFlight st) ->
    isGenerating st' = false -> comicSession st' = comicSession st ->
    Change ev st st'
| ChangeExported url session :
    comicSession st = Some session ->
    log st' = log st ++
      [CreateObjectURL (exportBlob session) url;
       LinkClick url (downloadName (Session.storyIdea session));
       RevokeObjectURL url] ->
    inFlight st' = inFlight st ->
    isGenerating st' = isGenerating st -> comicSession st' = comicSession st ->
    Change ev st st'.

(** Every prompt that went out, and every prompt of a suspended call,
    is clean. *)
Definition promptsClean (st : State) : Prop :=
  Forall (fun call => cleanPrompt (fst call)) (generatorCallsOf (log st)) /\
  Forall (fun s => cleanPrompt (Session.storyIdea s)) (installedOf (log st)) /\
  Forall cleanPrompt (historyOf (log st)) /\
  Forall (fun c => cleanPrompt (callStory c)) (inFlight st).

(** At most one call is suspended, and the busy flag says whether one
    is. *)
Definition singleFlight (st : State) : Prop :=
  (length (inFlight st) <= 1)%nat /\
  (isGenerating st = true <-> inFlight st <> []).

(** The closure of every suspended call holds the session of the
    context. *)
Definition closuresFresh (st : State) : Prop :=
  Forall (fun c => callSession c = comicSession st) (inFlight st).

(** Every blob URL that the page held or made (with the first session,
    with the sessions it installed, for an export) is revoked as often
    as it was held, the ones of the session on screen set aside. *)
Definition blobsAccounted (first : option ComicSession) (st : State) : Prop :=
  revokedOf (log st) ++ sessionBlobs (comicSession st) ≡ₚ
  sessionBlobs first ++
  concat (map (fun s => blobUrls (Session.pages s)) (installedOf (log st))) ++
  createdOf (log st).

(** A generation through the button over [sampleSession], then an
    export. *)
Definition accountingEvents : list Event :=
  [TypeStory (js "Mice aboard the station"); ClickGenerate;
   GeneratorSettles 0 (Fulfilled [samplePage 1 (js "blob:b")] 0%fin 1700000000100);
   ClickExport (js "blob:export")].


(** * Properties *)

Arguments js : simpl never.
Arguments failedMessage : simpl never.
Arguments trim : simpl never.
Arguments ofZ : simpl never.

(** ** The log *)

Lemma State_eta (st : State) :
  {| storyIdea := storyIdea st; pagesRequested := pagesRequested st;
     isGenerating := isGenerating st; isDialogOpen := isDialogOpen st;
     activePageIndex := activePageIndex st; comicSession := comicSession st;
     inFlight := inFlight st; log := log st |} = st.
Proof. by destruct st. Qed.

Lemma emitAll_nil st : emitAll [] st = st.
Proof. unfold emitAll. rewrite app_nil_r. apply State_eta. Qed.

Lemma emitAll_emit e es st : emitAll es (emit e st) = emitAll (e :: es) st.
Proof. unfold emitAll, emit; simpl. by rewrite <- app_assoc. Qed.

Lemma release_pages ps st :
  fold_left releasePage ps st = emitAll (map RevokeObjectURL (blobUrls ps)) st.
Proof.
  revert st. induction ps as [|p ps IH]; intros st; simpl.
  - by rewrite emitAll_nil.
  - rewrite IH. unfold releasePage, blobUrls. simpl.
    rewrite filter_cons. destruct (isBlobUrl (imageUrl p)) eqn:E.
    + rewrite decide_True by done. simpl. apply emitAll_emit.
    + by rewrite decide_False by done.
Qed.

Lemma releaseSessionResources_spec value st :
  releaseSessionResources value st =
  emitAll (map RevokeObjectURL (from_option (fun v => blobUrls (Session.pages v)) [] value)) st.
Proof.
  destruct value as [v|]; simpl.
  - apply release_pages.
  - by rewrite emitAll_nil.
Qed.

Lemma historyOf_app l1 l2 : historyOf (l1 ++ l2) = historyOf l1 ++ historyOf l2.
Proof. apply omap_app. Qed.

Lemma revokedOf_app l1 l2 : revokedOf (l1 ++ l2) = revokedOf l1 ++ revokedOf l2.
Proof. apply omap_app. Qed.

Lemma generatorCallsOf_app l1 l2 :
  generatorCallsOf (l1 ++ l2) = generatorCallsOf l1 ++ generatorCallsOf l2.
Proof. apply omap_app. Qed.

Lemma installedOf_app l1 l2 :
  installedOf (l1 ++ l2) = installedOf l1 ++ installedOf l2.
Proof. apply omap_app. Qed.

Lemma historyOf_revokes us : historyOf (map RevokeObjectURL us) = [].
Proof. by induction us. Qed.

(** ** The palette *)

Lemma pickGradient_nat (index : nat) :
  pickGradient (Z.of_nat index) = gradientPalette !! (index mod 6)%nat.
Proof.
  unfold pickGradient, at_index.
  change (Z.of_nat (length gradientPalette)) with (Z.of_nat 6).
  rewrite Z.rem_mod_nonneg by lia.
  rewrite <- Nat2Z.inj_mod.
  destruct (Z.ltb_spec (Z.of_nat (index mod 6)) 0) as [?|_]; [lia|].
  rewrite Nat2Z.id.
  pose proof (Nat.mod_upper_bound index 6 ltac:(lia)) as Hlt.
  revert Hlt. generalize (index mod 6)%nat. intros n Hlt.
  do 6 (destruct n as [|n]; [reflexivity|]). lia.
Qed.

Lemma pickGradient_fin (g : fin 6) :
  exists palette, gradientPalette !! fin_to_nat g = Some palette /\
                  pickGradient (Z.of_nat (fin_to_nat g)) = Some palette.
Proof.
  pose proof (fin_to_nat_lt g) as Hlt.
  rewrite pickGradient_nat, Nat.mod_small by done.
  destruct (lookup_lt_is_Some_2 gradientPalette (fin_to_nat g)) as [p Hp];
    [done | eauto].
Qed.

(** A negative number is no index: the read of the palette is
    [undefined] and the function throws. *)
Lemma pickGradient_negative : pickGradient (-1) = None.
Proof. reflexivity. Qed.

(** ** The suspended body of [handleGenerate] *)

Lemma handleGenerateResume_fulfilled c comic gradientIndex now st :
  exists g,
    gradientPalette !! fin_to_nat gradientIndex = Some g /\
    handleGenerateResume c (Fulfilled comic gradientIndex now) st =
    {| storyIdea := []; pagesRequested := pagesRequested st;
       isGenerating := false; isDialogOpen := isDialogOpen st;
       activePageIndex := 0;
       comicSession := Some (sessionOf c comic g now);
       inFlight := inFlight st;
       log := log st ++ fulfilledLog c (sessionOf c comic g now) |}.
Proof.
  destruct (pickGradient_fin gradientIndex) as (g & Hg & Hpick).
  exists g. split; [done|].
  unfold handleGenerateResume, generateTry. rewrite Hpick.
  assert (match callSession c with
          | Some _ => releaseSessionResources (callSession c) st
          | None => st
          end = releaseSessionResources (callSession c) st) as ->
    by (by destruct (callSession c)).
  rewrite releaseSessionResources_spec.
  unfold fulfilledLog, sessionOf, setComicSession, addToComicHistory; simpl.
  unfold setIsGenerating, setActivePageIndex, setStoryIdea, storeSession, emit,
    emitAll; simpl.
  f_equal. by rewrite <- !app_assoc.
Qed.

Lemma handleGenerateResume_rejected c error st :
  handleGenerateResume c (Rejected error) st =
  {| storyIdea := storyIdea st; pagesRequested := pagesRequested st;
     isGenerating := false; isDialogOpen := isDialogOpen st;
     activePageIndex := activePageIndex st;
     comicSession := comicSession st;
     inFlight := inFlight st;
     log := log st ++ [ConsoleError failedMessage error] |}.
Proof. reflexivity. Qed.

(** ** The effect and the render *)

Lemma viewerEffect_shape st :
  exists open index,
    viewerEffect st =
    {| storyIdea := storyIdea st; pagesRequested := pagesRequested st;
       isGenerating := isGenerating st; isDialogOpen := open;
       activePageIndex := index; comicSession := comicSession st;
       inFlight := inFlight st; log := log st |}.
Proof.
  unfold viewerEffect. destruct (comicSession st) as [s|] eqn:E.
  - destruct (_ >? _).
    + exists (isDialogOpen st), 0. unfold setActivePageIndex. by rewrite E.
    + exists (isDialogOpen st), (activePageIndex st). rewrite <- E. by rewrite State_eta.
  - exists false, (activePageIndex st). unfold setIsDialogOpen. by rewrite E.
Qed.

Section Render.
Variable exampleStories : list jsstring.

Lemma commit_no_change before after :
  comicSession before = comicSession after ->
  activePageIndex before = activePageIndex after ->
  commit before after = after.
Proof.
  intros Hs Hi. unfold commit, depsChanged.
  rewrite bool_decide_eq_true_2 by done.
  by rewrite Hi, Z.eqb_refl.
Qed.

Lemma commit_shape before after :
  exists open index,
    commit before after =
    {| storyIdea := storyIdea after; pagesRequested := pagesRequested after;
       isGenerating := isGenerating after; isDialogOpen := open;
       activePageIndex := index; comicSession := comicSession after;
       inFlight := inFlight after; log := log after |}.
Proof.
  unfold commit. destruct (depsChanged before after).
  - destruct (viewerEffect_shape after) as (o1 & i1 & E1).
    destruct (depsChanged after (viewerEffect after)).
    + destruct (viewerEffect_shape (viewerEffect after)) as (o2 & i2 & E2).
      exists o2, i2. rewrite E2. by rewrite E1.
    + by exists o1, i1.
  - exists (isDialogOpen after), (activePageIndex after). by rewrite State_eta.
Qed.

Lemma commit_log before after : log (commit before after) = log after.
Proof. by destruct (commit_shape before after) as (? & ? & ->). Qed.


Lemma commit_inFlight before after :
  inFlight (commit before after) = inFlight after.
Proof. by destruct (commit_shape before after) as (? & ? & ->). Qed.

End Render.

(** ** Generation *)

(** A fulfilled call, seen from the page: the state after the render
    that follows it. *)
Lemma step_fulfilled exampleStories st k c comic gradientIndex now :
  inFlight st !! k = Some c ->
  exists g,
    gradientPalette !! fin_to_nat gradientIndex = Some g /\
    step exampleStories st (GeneratorSettles k (Fulfilled comic gradientIndex now)) =
    {| storyIdea := []; pagesRequested := pagesRequested st;
       isGenerating := false; isDialogOpen := isDialogOpen st;
       activePageIndex := 0;
       comicSession := Some (sessionOf c comic g now);
       inFlight := remove_at k (inFlight st);
       log := log st ++ fulfilledLog c (sessionOf c comic g now) |}.
Proof.
  intros Hk. unfold step, dispatch. rewrite Hk.
  destruct (handleGenerateResume_fulfilled c comic gradientIndex now
              (setInFlight (remove_at k (inFlight st)) st)) as (g & Hg & ->).
  exists g. split; [done|]. simpl.
  unfold commit.
  destruct (depsChanged _ _); [|done].
  assert (forall o, viewerEffect
    {| storyIdea := []; pagesRequested := pagesRequested st;
       isGenerating := false; isDialogOpen := o;
       activePageIndex := 0;
       comicSession := Some (sessionOf c comic g now);
       inFlight := remove_at k (inFlight st);
       log := log st ++ fulfilledLog c (sessionOf c comic g now) |} =
    {| storyIdea := []; pagesRequested := pagesRequested st;
       isGenerating := false; isDialogOpen := o;
       activePageIndex := 0;
       comicSession := Some (sessionOf c comic g now);
       inFlight := remove_at k (inFlight st);
       log := log st ++ fulfilledLog c (sessionOf c comic g now) |}) as Heff.
  { intros o. unfold viewerEffect; simpl. by destruct (_ >? _). }
  rewrite !Heff. by destruct (depsChanged _ _).
Qed.

(** A rejected call, seen from the page. *)
Lemma step_rejected exampleStories st k c error :
  inFlight st !! k = Some c ->
  step exampleStories st (GeneratorSettles k (Rejected error)) =
  {| storyIdea := storyIdea st; pagesRequested := pagesRequested st;
     isGenerating := false; isDialogOpen := isDialogOpen st;
     activePageIndex := activePageIndex st;
     comicSession := comicSession st;
     inFlight := remove_at k (inFlight st);
     log := log st ++ [ConsoleError failedMessage error] |}.
Proof.
  intros Hk. unfold step, dispatch. rewrite Hk.
  rewrite handleGenerateResume_rejected. by apply commit_no_change.
Qed.

(** What [handleGenerate] does with a prompt that is not blank. *)
Lemma handleGenerate_starts idea pageCount st :
  truthy (trim (default (storyIdea st) idea)) = true ->
  handleGenerate idea pageCount st =
  {| storyIdea := storyIdea st; pagesRequested := pagesRequested st;
     isGenerating := true; isDialogOpen := isDialogOpen st;
     activePageIndex := activePageIndex st;
     comicSession := comicSession st;
     inFlight := inFlight st ++
       [{| callStory := trim (default (storyIdea st) idea);
           callCount := default (pagesRequested st) pageCount;
           callSession := comicSession st |}];
     log := log st ++
       [GenerateComic (trim (default (storyIdea st) idea))
          (default (pagesRequested st) pageCount)] |}.
Proof. intros H. unfold handleGenerate. by rewrite H. Qed.

(** C10: a call of [handleGenerate] whose prompt (the argument, or the
    prompt input when there is none) trims to the empty string returns
    at once and leaves everything as it was: the generator is not
    called, the busy flag is not set, no call is suspended, and session,
    history, prompt input and viewer are unchanged. *)
Theorem blank_prompt_is_ignored
    (idea : option jsstring) (pageCount : option PageCount) (st : State) :
  trim (default (storyIdea st) idea) = [] ->
  handleGenerate idea pageCount st = st.
Proof. intros H. unfold handleGenerate. by rewrite H. Qed.

Lemma blank_prompt_is_ignored_witness :
  handleGenerate (Some (js "   ")) (Some Two) (mounted None) = mounted None.
Proof. apply blank_prompt_is_ignored. reflexivity. Defined.

(** C4: when the call of the generator fails, the session of the
    context is the one from before, no session is installed, the error
    is logged, the busy flag is cleared, nothing is added to the
    history, the generator is not called again, and prompt input and
    viewer stay as they were. *)
Theorem failed_generation_keeps_session
    (exampleStories : list jsstring) (st : State) (k : nat) (c : Call)
    (error : jsstring) :
  inFlight st !! k = Some c ->
  let st' := step exampleStories st (GeneratorSettles k (Rejected error)) in
  comicSession st' = comicSession st /\
  installedOf (log st') = installedOf (log st) /\
  log st' = log st ++ [ConsoleError failedMessage error] /\
  isGenerating st' = false /\
  historyOf (log st') = historyOf (log st) /\
  generatorCallsOf (log st') = generatorCallsOf (log st) /\
  revokedOf (log st') = revokedOf (log st) /\
  storyIdea st' = storyIdea st /\
  activePageIndex st' = activePageIndex st /\
  isDialogOpen st' = isDialogOpen st.
Proof.
  intros Hk st'. subst st'. rewrite (step_rejected _ _ _ _ _ Hk). simpl.
  rewrite installedOf_app, historyOf_app, generatorCallsOf_app, revokedOf_app.
  simpl. by rewrite !app_nil_r.
Qed.

Lemma failed_generation_keeps_session_witness :
  inFlight sampleBusy !! 0%nat = Some sampleCall /\
  let st' := step sampleStories sampleBusy (GeneratorSettles 0 (Rejected (js "Error"))) in
  comicSession st' = Some sampleSession /\ isGenerating st' = false.
Proof.
  split; [reflexivity|].
  pose proof (failed_generation_keeps_session sampleStories sampleBusy 0 sampleCall
                (js "Error") eq_refl) as H.
  simpl in H. exact (conj (proj1 H) (proj1 (proj2 (proj2 (proj2 H))))).
Defined.



(** C9: [pickGradient] of an index returns the palette entry at that
    index modulo the length of the palette; and a fulfilled call builds
    its session with the pair of the entry that [pickGradient] returns
    for its random index, adds its prompt to the history once, clears
    the prompt input and puts the viewer on index 0. *)
Theorem fulfilled_generation_effects
    (exampleStories : list jsstring) (st : State) (k : nat) (c : Call)
    (comic : list Page) (gradientIndex : fin 6) (now : Z) :
  (forall index : nat,
     pickGradient (Z.of_nat index) =
     gradientPalette !! (index mod length gradientPalette)%nat) /\
  (inFlight st !! k = Some c ->
   let st' := step exampleStories st
                (GeneratorSettles k (Fulfilled comic gradientIndex now)) in
   (exists session palette,
      comicSession st' = Some session /\
      pickGradient (Z.of_nat (fin_to_nat gradientIndex)) = Some palette /\
      palette ∈ gradientPalette /\
      Session.gradientFrom session = from palette /\
      Session.gradientTo session = to palette) /\
   historyOf (log st') = historyOf (log st) ++ [callStory c] /\
   storyIdea st' = [] /\
   activePageIndex st' = 0).
Proof.
  split; [apply pickGradient_nat|].
  intros Hk st'. subst st'.
  destruct (step_fulfilled exampleStories st k c comic gradientIndex now Hk)
    as (g & Hg & ->). simpl.
  split; [|split; [|done]].
  - exists (sessionOf c comic g now), g. repeat split.
    + rewrite pickGradient_nat, Nat.mod_small; [done|]. apply fin_to_nat_lt.
    + by eapply list_elem_of_lookup_2.
  - unfold fulfilledLog. rewrite !historyOf_app, historyOf_revokes. done.
Qed.

Lemma fulfilled_generation_effects_witness :
  inFlight sampleBusy !! 0%nat = Some sampleCall /\
  let st' := step sampleStories sampleBusy
               (GeneratorSettles 0 (Fulfilled eightPages 4%fin 1700000000123)) in
  historyOf (log st') = [js "A tomato plant in space"] /\
  storyIdea st' = [] /\ activePageIndex st' = 0.
Proof.
  split; [reflexivity|].
  exact (proj2 (proj2 (fulfilled_generation_effects sampleStories sampleBusy 0
                         sampleCall eightPages 4%fin 1700000000123) eq_refl)).
Defined.

(** ** The viewer *)

Lemma setActivePageIndex_same st : setActivePageIndex (activePageIndex st) st = st.
Proof. apply State_eta. Qed.

(** C6: with [n] the number of pages of the session, [next] goes from
    [n - 1] to 0 and otherwise one up, [prev] goes from 0 to [n - 1]
    and otherwise one down, and nothing but the index changes; an index
    within the pages stays within them; on a session of one page the
    index of the open viewer, which is 0, stays, and the arrows are not
    rendered. *)
Theorem viewer_navigation_is_cyclic
    (exampleStories : list jsstring) (st : State) (session : ComicSession) :
  comicSession st = Some session ->
  let n := Z.of_nat (length (Session.pages session)) in
  let i := activePageIndex st in
  (forall direction,
     handleViewerChange direction st =
     setActivePageIndex (activePageIndex (handleViewerChange direction st)) st) /\
  (i = n - 1 -> activePageIndex (handleViewerChange next st) = 0) /\
  (i <> n - 1 -> activePageIndex (handleViewerChange next st) = i + 1) /\
  (i = 0 -> activePageIndex (handleViewerChange prev st) = n - 1) /\
  (i <> 0 -> activePageIndex (handleViewerChange prev st) = i - 1) /\
  (0 <= i < n ->
   forall direction, 0 <= activePageIndex (handleViewerChange direction st) < n) /\
  (n = 1 -> 0 <= i < n ->
   forall direction, handleViewerChange direction st = st) /\
  (n <= 1 -> forall direction, step exampleStories st (ClickNav direction) = st).
Proof.
  intros Hs n i. subst n i.
  unfold handleViewerChange. rewrite Hs. simpl.
  set (n := Z.of_nat (length (Session.pages session))).
  set (i := activePageIndex st).
  repeat split.
  - intros ->. by rewrite Z.eqb_refl.
  - intros H. by destruct (Z.eqb_spec i (n - 1)).
  - intros ->. done.
  - intros H. by destruct (Z.eqb_spec i 0).
  - destruct direction; simpl;
      [destruct (Z.eqb_spec i 0) | destruct (Z.eqb_spec i (n - 1))]; lia.
  - destruct direction; simpl;
      [destruct (Z.eqb_spec i 0) | destruct (Z.eqb_spec i (n - 1))]; lia.
  - intros Hn Hi direction.
    assert (viewerIndex direction n i = i) as ->.
    { destruct direction; simpl;
        [destruct (Z.eqb_spec i 0) | destruct (Z.eqb_spec i (n - 1))]; lia. }
    apply setActivePageIndex_same.
  - intros Hn direction. unfold step, dispatch.
    assert (navRendered st = false) as ->.
    { unfold navRendered. rewrite Hs.
      destruct (Nat.ltb_spec 1 (length (Session.pages session))); [lia|].
      by rewrite !andb_false_r. }
    by apply commit_no_change.
Qed.

Lemma viewer_navigation_is_cyclic_witness :
  activePageIndex sampleViewer = 2 /\
  activePageIndex (handleViewerChange next sampleViewer) = 0 /\
  activePageIndex (handleViewerChange prev sampleViewer) = 1.
Proof.
  split; [reflexivity|].
  destruct (viewer_navigation_is_cyclic sampleStories sampleViewer _ eq_refl)
    as (_ & Hnext & _ & _ & Hprev & _).
  split; [apply Hnext; reflexivity | apply Hprev; discriminate].
Defined.

(** ** The export *)

(** C8: without a session, or with a session of no pages, the export
    does nothing at all; with at least one page it creates one object
    URL for a blob of type application/json that holds the JSON text,
    indented by 2, of the object whose [story] is the prompt of the
    session and whose [pages] are its pages, clicks a link to that URL,
    and revokes the URL right after; nothing else changes. *)
Theorem export_downloads_session (url : jsstring) (st : State) :
  (comicSession st = None -> handleDownload url st = st) /\
  (forall session,
     comicSession st = Some session -> Session.pages session = [] ->
     handleDownload url st = st) /\
  (forall session,
     comicSession st = Some session -> Session.pages session <> [] ->
     let st' := handleDownload url st in
     exists name,
       log st' = log st ++
         [CreateObjectURL
            {| blobParts :=
                 [JSON_stringify
                    {| Payload.story := Session.storyIdea session;
                       Payload.pages := Session.pages session |} 2];
               blobType := js "application/json" |} url;
          LinkClick url name;
          RevokeObjectURL url] /\
       st' = emitAll (drop (length (log st)) (log st')) st).
Proof.
  unfold handleDownload. repeat split.
  - by intros ->.
  - intros session -> Hp. by rewrite Hp.
  - intros session -> Hp.
    destruct (Nat.eqb_spec (length (Session.pages session)) 0) as [H0|_].
    { by apply nil_length_inv in H0. }
    simpl. eexists. split.
    + rewrite <- !app_assoc. reflexivity.
    + rewrite <- !app_assoc, drop_app_length.
      unfold emit, emitAll; simpl. by rewrite <- !app_assoc.
Qed.

Lemma export_downloads_session_witness :
  comicSession (mounted (Some sampleSession)) = Some sampleSession /\
  Session.pages sampleSession <> [] /\
  revokedOf (log (handleDownload (js "blob:export") (mounted (Some sampleSession))))
  = [js "blob:export"].
Proof.
  split; [reflexivity|]. split; [discriminate|].
  destruct (proj2 (proj2 (export_downloads_session (js "blob:export")
                            (mounted (Some sampleSession))))
              sampleSession eq_refl ltac:(discriminate)) as (name & Hlog & _).
  rewrite Hlog. reflexivity.
Defined.

(** ** The name of the download *)

(** [runs] cuts the string into its maximal runs: the runs are not
    empty, uniform on [p], joined they give the string back, and no two
    neighbours could be joined. *)
Lemma runs_spec p s :
  concat (map snd (runs p s)) = s /\
  Forall (fun run => snd run <> [] /\ Forall (fun c => p c = fst run) (snd run))
         (runs p s) /\
  alternating (runs p s).
Proof.
  induction s as [|c s (IH1 & IH2 & IH3)]; simpl; [by repeat split|].
  destruct (runs p s) as [|[b r] rest] eqn:E.
  - simpl in *. subst s. repeat split; repeat constructor; done.
  - destruct (Bool.eqb (p c) b) eqn:Eb.
    + apply Bool.eqb_prop in Eb. simpl in *. rewrite IH1.
      inversion IH2 as [|? ? [Hne Hall] Hrest]; subst.
      repeat split; [|done]. constructor; [|done]. simpl in *.
      split; [done|]. by constructor.
    + apply Bool.eqb_false_iff in Eb. simpl in *. rewrite IH1.
      repeat split; [|done|done]. constructor; [|done]. simpl.
      split; [done|]. by constructor.
Qed.

(** The replacement of the component, lowered, is the slug; within a
    run that is being replaced the separator is already written. *)
Lemma replaceRunsFrom_slug s :
  toLowerCase (replaceRunsFrom false s) = slug s /\
  toLowerCase (replaceRunsFrom true s) =
  match runs isAlnum s with
  | (false, _) :: rest => concat (map slugOfRun rest)
  | _ => slug s
  end.
Proof.
  unfold slug. induction s as [|c s [IHf IHt]]; simpl; [done|].
  destruct (isAlnum c) eqn:Ec; simpl.
  - rewrite IHf. destruct (runs isAlnum s) as [|[[] r] rest]; simpl; done.
  - rewrite IHt. destruct (runs isAlnum s) as [|[[] r] rest]; simpl; done.
Qed.

Lemma replaceNonAlnumRuns_slug prompt :
  toLowerCase (replaceNonAlnumRuns prompt) = slug prompt.
Proof. apply replaceRunsFrom_slug. Qed.

(** The replacement leaves ASCII letters, digits and separators only. *)
Lemma replaceNonAlnumRuns_ascii prompt :
  Forall (fun c => (c < 128)%N) (replaceNonAlnumRuns prompt).
Proof.
  unfold replaceNonAlnumRuns. generalize false.
  induction prompt as [|c s IH]; intros inRun; simpl; [constructor|].
  destruct (isAlnum c) eqn:Ec.
  - constructor; [|apply IH].
    unfold isAlnum, isDigit, isUpper, isLower in Ec.
    rewrite !orb_true_iff, !andb_true_iff, !N.leb_le in Ec. lia.
  - destruct inRun; [apply IH|]. constructor; [done | apply IH].
Qed.

Lemma slug_nil_iff prompt : slug prompt = [] <-> prompt = [].
Proof.
  split; [|by intros ->].
  unfold slug. destruct prompt as [|c s]; [done|]. simpl.
  destruct (runs isAlnum s) as [|[b r] rest].
  - simpl. unfold slugOfRun. simpl. by destruct (isAlnum c).
  - destruct (Bool.eqb _ _); simpl; unfold slugOfRun at 1; simpl.
    + by destruct b.
    + by destruct (isAlnum c).
Qed.

Lemma safeName_slug prompt :
  safeName prompt = if decide (prompt = []) then js "comic" else slug prompt.
Proof.
  unfold safeName. rewrite replaceNonAlnumRuns_slug. unfold or_else.
  case_decide as H.
  - by subst prompt.
  - destruct (slug_nil_iff prompt) as [Hnil _].
    destruct (slug prompt); [by destruct H; apply Hnil | done].
Qed.

(** C2, as it stands, fails: the export of a session whose prompt is
    "Tom & Jerry!!" is named tom-jerry-.json, not tom-jerry.json, and
    the export of a session whose prompt is "!!!" is named -.json, not
    comic.json. *)
Lemma download_name_keeps_outer_separators :
  downloadsOf (log (handleDownload (js "blob:x") (mounted (Some sampleSession))))
  = [js "tom-jerry-.json"] /\
  js "tom-jerry-.json" <> js "tom-jerry.json" /\
  downloadsOf (log (handleDownload (js "blob:x") (mounted (Some punctuationSession))))
  = [js "-.json"] /\
  js "-.json" <> js "comic.json".
Proof. repeat split; (reflexivity || discriminate). Qed.

(** C2, amended: the export of a session with at least one page clicks
    one link, and its name is the slug of the prompt followed by .json,
    or comic.json when the slug is empty; the slug is the prompt in
    lower case with every maximal run of characters other than ASCII
    letters and digits, the first and the last run too, replaced by one
    "-", and it is empty only for the empty prompt.  "Tom & Jerry!!"
    gives tom-jerry-.json and "" gives comic.json. *)
Theorem download_name_is_slug (url : jsstring) (st : State) (session : ComicSession) :
  comicSession st = Some session ->
  Session.pages session <> [] ->
  let prompt := Session.storyIdea session in
  downloadsOf (log (handleDownload url st)) =
    downloadsOf (log st) ++ [downloadName prompt] /\
  downloadName prompt =
    (if decide (slug prompt = []) then js "comic" else slug prompt) ++ js ".json" /\
  (slug prompt = [] <-> prompt = []) /\
  downloadName (js "Tom & Jerry!!") = js "tom-jerry-.json" /\
  downloadName (js "") = js "comic.json".
Proof.
  intros Hs Hp prompt. subst prompt.
  split; [|split; [|split; [apply slug_nil_iff | by split]]].
  - unfold handleDownload. rewrite Hs.
    destruct (Nat.eqb_spec (length (Session.pages session)) 0) as [H0|_].
    { by apply nil_length_inv in H0. }
    simpl. unfold downloadsOf. rewrite !omap_app. simpl. by rewrite !app_nil_r.
  - unfold downloadName. rewrite safeName_slug.
    pose proof (slug_nil_iff (Session.storyIdea session)) as [H1 H2].
    destruct (decide (Session.storyIdea session = [])) as [Hnil|Hcons];
      destruct (decide (slug (Session.storyIdea session) = [])) as [Hs0|Hs1];
      try done.
    + destruct Hs1. by apply H2.
    + destruct Hcons. by apply H1.
Qed.

Lemma download_name_is_slug_witness :
  comicSession (mounted (Some sampleSession)) = Some sampleSession /\
  Session.pages sampleSession <> [] /\
  downloadsOf (log (handleDownload (js "blob:x") (mounted (Some sampleSession))))
  = [] ++ [downloadName (js "Tom & Jerry!!")].
Proof.
  split; [reflexivity|]. split; [discriminate|].
  exact (proj1 (download_name_is_slug (js "blob:x") (mounted (Some sampleSession))
                  sampleSession eq_refl ltac:(discriminate))).
Defined.

(** ** The index of the viewer *)

Lemma viewerEffect_settles st :
  sessionNumbered (comicSession st) -> 0 <= activePageIndex st ->
  viewerInvariant (viewerEffect st).
Proof.
  intros Hn Hi. unfold viewerEffect, viewerInvariant, indexSettled.
  destruct (comicSession st) as [s|] eqn:E; simpl.
  - destruct (Z.gtb_spec (activePageIndex st) (Z.of_nat (length (Session.pages s)) - 1));
      simpl; rewrite E; auto with lia.
  - by rewrite E.
Qed.

Lemma depsChanged_false before after :
  depsChanged before after = false ->
  comicSession before = comicSession after /\
  activePageIndex before = activePageIndex after.
Proof.
  unfold depsChanged. intros H. apply negb_false_iff, andb_true_iff in H.
  destruct H as [H1 H2]. apply bool_decide_eq_true in H1. apply Z.eqb_eq in H2.
  done.
Qed.

Lemma commit_invariant before after :
  viewerInvariant before ->
  sessionNumbered (comicSession after) -> 0 <= activePageIndex after ->
  viewerInvariant (commit before after).
Proof.
  intros Hinv Hn Hi. unfold commit.
  destruct (depsChanged before after) eqn:E.
  - pose proof (viewerEffect_settles after Hn Hi) as H1.
    destruct (depsChanged after (viewerEffect after)); [|done].
    destruct H1 as [? [? _]]. by apply viewerEffect_settles.
  - apply depsChanged_false in E as [Es Ei].
    unfold viewerInvariant, indexSettled in *. by rewrite <- Es, <- Ei.
Qed.

Lemma handleGenerate_viewer idea pageCount st :
  comicSession (handleGenerate idea pageCount st) = comicSession st /\
  activePageIndex (handleGenerate idea pageCount st) = activePageIndex st.
Proof. unfold handleGenerate. by destruct (negb _). Qed.

Lemma handleDownload_viewer url st :
  comicSession (handleDownload url st) = comicSession st /\
  activePageIndex (handleDownload url st) = activePageIndex st.
Proof.
  unfold handleDownload. destruct (comicSession st) eqn:E; [|done].
  by destruct (_ =? _)%nat.
Qed.

Lemma at_index_Some {A} (xs : list A) i x :
  at_index xs i = Some x -> 0 <= i < Z.of_nat (length xs).
Proof.
  unfold at_index. destruct (Z.ltb_spec i 0) as [|Hi]; [done|].
  intros Hx%lookup_lt_Some. lia.
Qed.

(** Every handler leaves a numbered session and an index that is not
    negative. *)
Lemma dispatch_viewer exampleStories ev st :
  viewerInvariant st -> eventNumbered ev ->
  sessionNumbered (comicSession (dispatch exampleStories ev st)) /\
  0 <= activePageIndex (dispatch exampleStories ev st).
Proof.
  intros (Hn & Hi & Hr) Hev.
  destruct ev as [value|k|k|count| |k r| |k|url|direction|open|value]; simpl.
  - done.
  - by destruct (_ !! _).
  - destruct (_ !! _) as [story|]; [|done].
    by destruct (handleGenerate_viewer (Some story) None st) as [-> ->].
  - done.
  - destruct (generateDisabled st); [done|].
    by destruct (handleGenerate_viewer None None st) as [-> ->].
  - destruct (inFlight st !! k) as [c|]; [|done].
    destruct r as [comic g now|error].
    + destruct (handleGenerateResume_fulfilled c comic g now
                  (setInFlight (remove_at k (inFlight st)) st)) as (p & _ & ->).
      simpl in *. done.
    + by rewrite handleGenerateResume_rejected.
  - unfold openViewer. destruct (comicSession st) eqn:E; simpl; by rewrite ?E.
  - destruct (comicSession st) as [s|] eqn:E; [|by rewrite E].
    destruct (Session.pages s !! k) as [page|] eqn:Ek; [|by rewrite E].
    unfold openViewer. rewrite E. simpl. rewrite E. split; [done|].
    simpl in Hn. unfold wellNumbered in Hn. rewrite Forall_lookup in Hn.
    specialize (Hn _ _ Ek). simpl in Hn. lia.
  - by destruct (handleDownload_viewer url st) as [-> ->].
  - destruct (navRendered st) eqn:En; [|done].
    unfold navRendered in En. unfold handleViewerChange.
    destruct (comicSession st) as [s|] eqn:E; [|by rewrite andb_false_r in En].
    simpl. rewrite E. split; [done|].
    apply andb_true_iff in En as [_ En]. apply andb_true_iff in En as [En1 En2].
    apply bool_decide_eq_true in En1. destruct En1 as [page Hp].
    apply at_index_Some in Hp. apply Nat.ltb_lt in En2.
    destruct direction; simpl.
    + destruct (Z.eqb_spec (activePageIndex st) 0); lia.
    + destruct (Z.eqb_spec (activePageIndex st)
                  (Z.of_nat (length (Session.pages s)) - 1)); lia.
  - done.
  - done.
Qed.

Lemma step_invariant exampleStories st ev :
  viewerInvariant st -> eventNumbered ev ->
  viewerInvariant (step exampleStories st ev).
Proof.
  intros Hinv Hev. unfold step.
  destruct (dispatch_viewer exampleStories ev st Hinv Hev).
  by apply commit_invariant.
Qed.

Lemma run_invariant exampleStories evs st :
  viewerInvariant st -> Forall eventNumbered evs ->
  viewerInvariant (run exampleStories st evs).
Proof.
  revert st. induction evs as [|ev evs IH]; intros st Hinv Hevs; [done|].
  inversion Hevs; subst. simpl. apply IH; [|done]. by apply step_invariant.
Qed.

Lemma mounted_invariant session :
  sessionNumbered session -> viewerInvariant (mounted session).
Proof.
  intros H. split; [done|]. split; [done|]. simpl. destruct session; auto.
Qed.



Lemma viewerEffect_resets st s :
  comicSession st = Some s ->
  activePageIndex st > Z.of_nat (length (Session.pages s)) - 1 ->
  viewerEffect st = setActivePageIndex 0 st.
Proof.
  intros Hs Hi. unfold viewerEffect. rewrite Hs.
  by destruct (Z.gtb_spec (activePageIndex st) (Z.of_nat (length (Session.pages s)) - 1));
    [|lia].
Qed.





(** ** The busy flag *)

(** The "Generate comic" button is disabled while a call is in flight:
    a click on it does nothing. *)
Lemma busy_generate_button_is_inert exampleStories st :
  isGenerating st = true -> step exampleStories st ClickGenerate = st.
Proof.
  intros H. unfold step, dispatch, generateDisabled. rewrite H. simpl.
  by apply commit_no_change.
Qed.

(** A quick prompt is not: its click calls [handleGenerate], which
    does not read the flag. *)
Lemma busy_quick_prompt_calls_generator exampleStories st k story :
  take 2 exampleStories !! k = Some story ->
  truthy (trim story) = true ->
  let st' := step exampleStories st (ClickQuickPrompt k) in
  generatorCallsOf (log st') =
    generatorCallsOf (log st) ++ [(trim story, pagesRequested st)] /\
  length (inFlight st') = S (length (inFlight st)).
Proof.
  intros Hk Hstory st'. subst st'. unfold step, dispatch. rewrite Hk.
  rewrite commit_log, commit_inFlight.
  rewrite (handleGenerate_starts (Some story) None st Hstory). simpl.
  rewrite generatorCallsOf_app, length_app. simpl. split; [done | lia].
Qed.

(** C1 fails on the quick prompts: with a call in flight and the busy
    flag set, a click on a quick prompt makes a second call of the
    generator while the first is outstanding, and when both are
    fulfilled the history has the prompt twice. *)
Theorem busy_quick_prompt_reenters :
  let busy := step sampleStories (mounted None) (ClickQuickPrompt 0) in
  let again := step sampleStories busy (ClickQuickPrompt 0) in
  let settled := run sampleStories again reentrantSettlements in
  isGenerating busy = true /\
  length (inFlight busy) = 1%nat /\
  generatorCallsOf (log busy) = [(js "A tomato plant in space", One)] /\
  length (inFlight again) = 2%nat /\
  generatorCallsOf (log again) =
    [(js "A tomato plant in space", One); (js "A tomato plant in space", One)] /\
  historyOf (log settled) =
    [js "A tomato plant in space"; js "A tomato plant in space"].
Proof. vm_compute. repeat split. Qed.

(** ** The release of a replaced session *)

(** X12: one call with no other in flight: what it logs from the click
    to the installation.  The blob URLs of the session it replaces are
    revoked, one call for each page that holds one, before the new
    session is installed, and no other URL is. *)
Lemma single_generation_releases_previous
    exampleStories st idea pageCount comic gradientIndex now :
  inFlight st = [] ->
  truthy (trim (default (storyIdea st) idea)) = true ->
  let st' := run exampleStories (handleGenerate idea pageCount st)
               [GeneratorSettles 0 (Fulfilled comic gradientIndex now)] in
  exists new,
    comicSession st' = Some new /\
    Session.pages new = comic /\
    log st' = log st ++
      [GenerateComic (trim (default (storyIdea st) idea))
         (default (pagesRequested st) pageCount)] ++
      map RevokeObjectURL
        (from_option (fun v => blobUrls (Session.pages v)) [] (comicSession st)) ++
      [SetComicSession new;
       AddToComicHistory (trim (default (storyIdea st) idea))].
Proof.
  intros Hnone Hstory st'. subst st'. simpl.
  rewrite (handleGenerate_starts _ _ _ Hstory), Hnone. simpl.
  edestruct step_fulfilled as (g & _ & ->); [reflexivity|].
  eexists. split; [reflexivity|]. split; [reflexivity|].
  simpl. unfold fulfilledLog. simpl. by rewrite <- !app_assoc.
Qed.

(** C3 fails when two calls overlap: both closures hold the session
    that was current at their click.  The second fulfilment replaces
    the session of the first, whose page holds blob:b, and revokes
    blob:a a second time; blob:b is never revoked. *)
Theorem overlapping_generations_release_stale_session :
  let st := run sampleStories (mounted (Some sampleSession)) overlappingGenerations in
  map Session.pages (installedOf (log st)) =
    [[samplePage 1 (js "blob:b")]; [samplePage 1 (js "blob:c")]] /\
  option_map Session.pages (comicSession st) = Some [samplePage 1 (js "blob:c")] /\
  revokedOf (log st) = [js "blob:a"; js "blob:a"] /\
  js "blob:b" ∉ revokedOf (log st).
Proof.
  vm_compute. repeat split.
  intros H. repeat (apply elem_of_cons in H as [H|H]; [discriminate H|]).
  by apply elem_of_nil in H.
Qed.

(** * Further properties of the page *)

(** ** The effect settles in one run *)

Lemma viewerEffect_idempotent st : viewerEffect (viewerEffect st) = viewerEffect st.
Proof.
  destruct (comicSession st) as [s|] eqn:E.
  - destruct (Z.gtb_spec (activePageIndex st)
                (Z.of_nat (length (Session.pages s)) - 1)) as [Hgt|Hle].
    + rewrite (viewerEffect_resets st s) by (done || lia).
      unfold viewerEffect. simpl. rewrite E. destruct (_ >? _); reflexivity.
    + assert (viewerEffect st = st) as Hfix; [|by rewrite !Hfix].
      unfold viewerEffect. rewrite E.
      by destruct (Z.gtb_spec (activePageIndex st)
                     (Z.of_nat (length (Session.pages s)) - 1)); [lia|].
  - unfold viewerEffect. rewrite E. simpl. by rewrite E.
Qed.

Lemma commit_once before after :
  commit before after =
  if depsChanged before after then viewerEffect after else after.
Proof.
  unfold commit. rewrite viewerEffect_idempotent.
  by repeat destruct (depsChanged _ _).
Qed.

(** X1: one run of the effect is enough: if it is run again on what it
    left, nothing changes, so the render that follows a handler is one
    run of the effect when a dependency changed and nothing otherwise;
    the effect never touches session, prompt, busy flag, suspended
    calls or log. *)
Theorem viewer_effect_is_idempotent (before after : State) :
  viewerEffect (viewerEffect after) = viewerEffect after /\
  commit before after =
    (if depsChanged before after then viewerEffect after else after) /\
  comicSession (viewerEffect after) = comicSession after /\
  storyIdea (viewerEffect after) = storyIdea after /\
  isGenerating (viewerEffect after) = isGenerating after /\
  inFlight (viewerEffect after) = inFlight after /\
  log (viewerEffect after) = log after.
Proof.
  split; [apply viewerEffect_idempotent|]. split; [apply commit_once|].
  destruct (viewerEffect_shape after) as (o & i & ->). done.
Qed.

(** ** Opening the viewer *)

Lemma commit_openViewer st s index :
  comicSession st = Some s ->
  commit st (setIsDialogOpen true (setActivePageIndex index st)) =
  setIsDialogOpen true
    (setActivePageIndex
       (if index >? Z.of_nat (length (Session.pages s)) - 1 then 0 else index) st)
  \/ (activePageIndex st = index /\
      commit st (setIsDialogOpen true (setActivePageIndex index st)) =
      setIsDialogOpen true st).
Proof.
  intros Hs.
  rewrite commit_once.
  destruct (depsChanged _ _) eqn:Ed.
  - left. unfold viewerEffect. simpl. rewrite Hs. by destruct (_ >? _).
  - right. apply depsChanged_false in Ed as [_ Ei]. simpl in Ei.
    split; [done|]. rewrite <- Ei. by rewrite setActivePageIndex_same.
Qed.

(** X2: without a session [openViewer] does nothing.  Over a session,
    a click on the preview of a page whose number is its position
    (counted from 1) opens the dialog on that very page and touches
    neither session nor log; a click on the preview of a page whose
    number is beyond the number of pages, with the index within the
    pages before, ends after the render on index 0. *)
Theorem preview_click_opens_clicked_page
    (exampleStories : list jsstring) (st : State) (s : ComicSession)
    (k : nat) (page : Page) :
  (forall index st0, comicSession st0 = None -> openViewer index st0 = st0) /\
  (comicSession st = Some s ->
   Session.pages s !! k = Some page ->
   let st' := step exampleStories st (ClickPagePreview k) in
   (pageNumber page = Z.of_nat k + 1 ->
    isDialogOpen st' = true /\
    activePageIndex st' = Z.of_nat k /\
    at_index (Session.pages s) (activePageIndex st') = Some page /\
    comicSession st' = Some s /\ log st' = log st) /\
   (pageNumber page > Z.of_nat (length (Session.pages s)) ->
    activePageIndex st <= Z.of_nat (length (Session.pages s)) - 1 ->
    isDialogOpen st' = true /\ activePageIndex st' = 0)).
Proof.
  split.
  { intros index st0 H. unfold openViewer. by rewrite H. }
  intros Hs Hk st'. subst st'. unfold step. simpl. rewrite Hs, Hk.
  unfold openViewer. rewrite Hs.
  pose proof (lookup_lt_Some _ _ _ Hk) as Hlt.
  split.
  - intros Hnum.
    assert (pageNumber page - 1 = Z.of_nat k) as -> by lia.
    assert (at_index (Session.pages s) (Z.of_nat k) = Some page) as Hat.
    { unfold at_index. destruct (Z.ltb_spec (Z.of_nat k) 0); [lia|].
      by rewrite Nat2Z.id. }
    destruct (commit_openViewer st s (Z.of_nat k) Hs) as [->|[Hi ->]]; simpl.
    + destruct (Z.gtb_spec (Z.of_nat k) (Z.of_nat (length (Session.pages s)) - 1));
        [lia|]. by rewrite Hat.
    + by rewrite Hi, Hat.
  - intros Hnum Hin.
    destruct (commit_openViewer st s (pageNumber page - 1) Hs) as [->|[Hi ->]]; simpl.
    + by destruct (Z.gtb_spec (pageNumber page - 1)
                     (Z.of_nat (length (Session.pages s)) - 1)); [|lia].
    + lia.
Qed.

Lemma preview_click_opens_clicked_page_witness :
  comicSession sampleViewerStart = Some sampleSessionOfViewer /\
  Session.pages sampleSessionOfViewer !! 1%nat = Some (samplePage 2 (js "blob:p2")) /\
  let st' := step sampleStories sampleViewerStart (ClickPagePreview 1) in
  isDialogOpen st' = true /\ activePageIndex st' = 1.
Proof.
  split; [reflexivity|]. split; [reflexivity|].
  destruct (proj1 (proj2 (preview_click_opens_clicked_page sampleStories
                            sampleViewerStart sampleSessionOfViewer 1
                            (samplePage 2 (js "blob:p2"))) eq_refl eq_refl) eq_refl)
    as (Ho & Hi & _).
  exact (conj Ho Hi).
Defined.

(** ** Navigation as arithmetic *)

Lemma handleViewerChange_set direction st s j :
  comicSession st = Some s ->
  handleViewerChange direction (setActivePageIndex j st) =
  setActivePageIndex
    (viewerIndex direction (Z.of_nat (length (Session.pages s))) j) st.
Proof. intros Hs. unfold handleViewerChange. simpl. by rewrite Hs. Qed.

Lemma viewerIndex_mod direction n i :
  0 <= i < n ->
  viewerIndex direction n i =
  match direction with prev => (i - 1) mod n | next => (i + 1) mod n end.
Proof.
  intros Hi. destruct direction; simpl.
  - destruct (Z.eqb_spec i 0) as [->|Hne].
    + replace (0 - 1) with ((n - 1) + (-1) * n) by lia.
      rewrite Z.mod_add by lia. by rewrite Z.mod_small by lia.
    + by rewrite Z.mod_small by lia.
  - destruct (Z.eqb_spec i (n - 1)) as [->|Hne].
    + replace (n - 1 + 1) with (0 + 1 * n) by lia.
      rewrite Z.mod_add by lia. by rewrite Z.mod_small by lia.
    + by rewrite Z.mod_small by lia.
Qed.

Lemma iter_next st s (k : nat) :
  comicSession st = Some s ->
  0 <= activePageIndex st < Z.of_nat (length (Session.pages s)) ->
  Nat.iter k (handleViewerChange next) st =
  setActivePageIndex
    ((activePageIndex st + Z.of_nat k) mod Z.of_nat (length (Session.pages s))) st.
Proof.
  intros Hs Hi. induction k as [|k IH].
  - simpl. rewrite Z.add_0_r, Z.mod_small by done.
    by rewrite setActivePageIndex_same.
  - simpl. rewrite IH. rewrite (handleViewerChange_set _ _ s) by done.
    rewrite viewerIndex_mod by (apply Z.mod_pos_bound; lia).
    rewrite Z.add_mod_idemp_l by lia. do 2 f_equal. lia.
Qed.

(** X3: over a session and an index within its pages, [next] is the
    successor and [prev] the predecessor modulo the number of pages,
    each undoes the other, and as many [next] as there are pages lead
    back to the state one started from. *)
Theorem navigation_round_trip (st : State) (s : ComicSession) :
  comicSession st = Some s ->
  let n := Z.of_nat (length (Session.pages s)) in
  0 <= activePageIndex st < n ->
  activePageIndex (handleViewerChange next st) = (activePageIndex st + 1) mod n /\
  activePageIndex (handleViewerChange prev st) = (activePageIndex st - 1) mod n /\
  handleViewerChange prev (handleViewerChange next st) = st /\
  handleViewerChange next (handleViewerChange prev st) = st /\
  Nat.iter (length (Session.pages s)) (handleViewerChange next) st = st.
Proof.
  intros Hs n Hi.
  assert (forall direction,
            handleViewerChange direction st =
            setActivePageIndex (viewerIndex direction n (activePageIndex st)) st)
    as Hstep.
  { intros direction. unfold handleViewerChange. by rewrite Hs. }
  assert (forall i, 0 <= i < n ->
            viewerIndex prev n (viewerIndex next n i) = i /\
            viewerIndex next n (viewerIndex prev n i) = i) as Hinv.
  { intros i Hr. simpl.
    destruct (Z.eqb_spec i (n - 1)), (Z.eqb_spec i 0); simpl; split;
      repeat match goal with |- context [?a =? ?b] => destruct (Z.eqb_spec a b) end;
      lia. }
  split; [|split; [|split; [|split]]].
  - rewrite Hstep. simpl activePageIndex. by apply (viewerIndex_mod next).
  - rewrite Hstep. simpl activePageIndex. by apply (viewerIndex_mod prev).
  - rewrite (Hstep next), (handleViewerChange_set _ _ s) by done.
    fold n. rewrite (proj1 (Hinv _ Hi)). apply setActivePageIndex_same.
  - rewrite (Hstep prev), (handleViewerChange_set _ _ s) by done.
    fold n. rewrite (proj2 (Hinv _ Hi)). apply setActivePageIndex_same.
  - rewrite (iter_next st s) by done. fold n.
    replace (activePageIndex st + n) with (activePageIndex st + 1 * n) by lia.
    rewrite Z.mod_add, Z.mod_small by lia. apply setActivePageIndex_same.
Qed.

Lemma navigation_round_trip_witness :
  comicSession sampleViewer = Some sampleSessionOfViewer /\
  0 <= activePageIndex sampleViewer < 3 /\
  handleViewerChange prev (handleViewerChange next sampleViewer) = sampleViewer /\
  Nat.iter 3 (handleViewerChange next) sampleViewer = sampleViewer.
Proof.
  split; [reflexivity|]. split; [by vm_compute|].
  destruct (navigation_round_trip sampleViewer sampleSessionOfViewer eq_refl)
    as (_ & _ & H1 & _ & H2); [by vm_compute|].
  exact (conj H1 H2).
Defined.

(** ** The content of the dialog *)

(** X4: after the render that follows any event, over sessions whose
    pages are numbered from 1, a session with at least one page always
    has its active page: the guard of the content of the dialog holds,
    and the arrows are rendered exactly when the dialog is open and the
    session has more than one page. *)
Theorem open_dialog_has_content
    (exampleStories : list jsstring) (session : option ComicSession)
    (evs : list Event) :
  sessionNumbered session -> Forall eventNumbered evs ->
  let st := run exampleStories (mounted session) evs in
  forall s, comicSession st = Some s -> Session.pages s <> [] ->
  dialogContentRendered st = true /\
  navRendered st = viewerOpen st && (1 <? length (Session.pages s))%nat.
Proof.
  intros Hn Hevs st s Hs Hp. subst st.
  pose proof (run_invariant exampleStories evs _ (mounted_invariant _ Hn) Hevs)
    as (_ & Hi & Hr).
  set (st := run exampleStories (mounted session) evs) in *.
  rewrite Hs in Hr.
  assert (0 <= activePageIndex st < Z.of_nat (length (Session.pages s))) as Hin.
  { destruct Hr as [Hr|Hr]; [lia|]. destruct (Session.pages s); [done|].
    simpl. lia. }
  assert (is_Some (at_index (Session.pages s) (activePageIndex st))) as Hat.
  { unfold at_index. destruct (Z.ltb_spec (activePageIndex st) 0); [lia|].
    apply lookup_lt_is_Some_2. lia. }
  unfold dialogContentRendered, navRendered. rewrite Hs.
  by rewrite bool_decide_eq_true_2.
Qed.

Lemma open_dialog_has_content_witness :
  sessionNumbered (Some sampleSessionOfViewer) /\
  Forall eventNumbered [ClickPagePreview 2; ClickNav next] /\
  let st := run sampleStories (mounted (Some sampleSessionOfViewer))
              [ClickPagePreview 2; ClickNav next] in
  dialogContentRendered st = true.
Proof.
  assert (sessionNumbered (Some sampleSessionOfViewer)) as Hn.
  { simpl. repeat constructor; simpl; lia. }
  assert (Forall eventNumbered [ClickPagePreview 2; ClickNav next]) as Hevs.
  { by repeat constructor. }
  split; [exact Hn|]. split; [exact Hevs|].
  exact (proj1 (open_dialog_has_content sampleStories _ _ Hn Hevs
                  sampleSessionOfViewer eq_refl ltac:(discriminate))).
Defined.

(** ** What the form and the viewer leave alone *)

(** The events that call nothing and suspend nothing. *)
Lemma step_quiet exampleStories st ev :
  formOrViewerEvent ev = true ->
  log (step exampleStories st ev) = log st /\
  comicSession (step exampleStories st ev) = comicSession st /\
  inFlight (step exampleStories st ev) = inFlight st /\
  isGenerating (step exampleStories st ev) = isGenerating st.
Proof.
  intros Hev. unfold step.
  destruct (commit_shape st (dispatch exampleStories ev st)) as (o & i & ->).
  simpl.
  destruct ev as [value|k|k|count| |k r| |k|url|direction|open|value];
    try discriminate Hev; simpl.
  - done.
  - by destruct (_ !! _).
  - done.
  - unfold openViewer. destruct (comicSession st) eqn:E; simpl; by rewrite ?E.
  - destruct (comicSession st) as [s|] eqn:E; [|by rewrite E].
    destruct (Session.pages s !! k); [|by rewrite E].
    unfold openViewer. rewrite E. simpl. by rewrite E.
  - destruct (navRendered st); [|done].
    unfold handleViewerChange.
    destruct (comicSession st) eqn:E; simpl; by rewrite ?E.
  - done.
Qed.

(** X5: typing, choosing an example, choosing a page count, opening,
    turning and closing the viewer call nothing outside of the
    component and leave the session, the suspended calls and the busy
    flag as they are. *)
Theorem form_and_viewer_events_stay_inside
    (exampleStories : list jsstring) (st : State) (ev : Event) :
  formOrViewerEvent ev = true ->
  let st' := step exampleStories st ev in
  log st' = log st /\
  comicSession st' = comicSession st /\
  inFlight st' = inFlight st /\
  isGenerating st' = isGenerating st.
Proof. intros Hev st'. subst st'. by apply step_quiet. Qed.

Lemma form_and_viewer_events_stay_inside_witness :
  formOrViewerEvent (ClickNav next) = true /\
  log (step sampleStories sampleViewer (ClickNav next)) = log sampleViewer.
Proof.
  split; [reflexivity|].
  exact (proj1 (form_and_viewer_events_stay_inside sampleStories sampleViewer
                  (ClickNav next) eq_refl)).
Defined.

(** ** The cards *)

(** X6: the page shows one or two cards, the slice cuts nothing off,
    the highlight card with its quick prompts is always the last of
    them, and a session card is shown, in front of it, exactly for the
    session of the context. *)
Theorem highlight_card_is_always_shown (session : option ComicSession) :
  limitedCards session = cardsToShow session /\
  (1 <= length (limitedCards session) <= 2)%nat /\
  list.last (limitedCards session) = Some (HighlightCard highlightCard) /\
  (forall s, SessionCard s ∈ limitedCards session <-> session = Some s) /\
  (forall s, session = Some s -> head (limitedCards session) = Some (SessionCard s)).
Proof.
  split; [by destruct session|]. split; [destruct session; simpl; lia|].
  split; [by destruct session|]. split.
  - intros s. destruct session as [s0|]; simpl; split.
    + intros H. apply elem_of_cons in H as [H|H]; [congruence|].
      apply elem_of_cons in H as [H|H]; [discriminate|]. by apply elem_of_nil in H.
    + intros [= ->]. apply elem_of_cons. by left.
    + intros H. apply elem_of_cons in H as [H|H]; [discriminate|].
      by apply elem_of_nil in H.
    + done.
  - by intros s ->.
Qed.

(** ** Trimming *)

Lemma trimStart_head s :
  trimStart s = [] \/
  exists c t, trimStart s = c :: t /\ isWhiteSpace c = false.
Proof.
  induction s as [|a s IH]; simpl; [by left|].
  destruct (isWhiteSpace a) eqn:E; [done|]. right. by exists a, s.
Qed.

Lemma trimStart_snoc l c :
  isWhiteSpace c = false -> trimStart (l ++ [c]) = trimStart l ++ [c].
Proof.
  intros Hc. induction l as [|a l IH]; simpl; [by rewrite Hc|].
  by destruct (isWhiteSpace a).
Qed.

Lemma trimEnd_cons c t :
  isWhiteSpace c = false -> trimEnd (c :: t) = c :: trimEnd t.
Proof.
  intros Hc. unfold trimEnd. simpl. rewrite trimStart_snoc by done.
  by rewrite rev_app_distr.
Qed.

Lemma trimStart_idempotent s : trimStart (trimStart s) = trimStart s.
Proof.
  destruct (trimStart_head s) as [->|(c & t & -> & Hc)]; [done|].
  simpl. by rewrite Hc.
Qed.

Lemma trimEnd_idempotent s : trimEnd (trimEnd s) = trimEnd s.
Proof. unfold trimEnd. by rewrite rev_involutive, trimStart_idempotent. Qed.

Lemma trim_idempotent s : trim (trim s) = trim s.
Proof.
  unfold trim. destruct (trimStart_head s) as [->|(c & t & -> & Hc)]; [done|].
  rewrite trimEnd_cons by done. simpl. rewrite Hc.
  rewrite trimEnd_cons by done. by rewrite trimEnd_idempotent.
Qed.

Lemma truthy_true s : truthy s = true <-> s <> [].
Proof. by destruct s. Qed.

Lemma cleanPrompt_trim s : truthy (trim s) = true -> cleanPrompt (trim s).
Proof. intros H. split; [by apply truthy_true | apply trim_idempotent]. Qed.

(** A clean prompt begins and ends with something else than white
    space. *)
Lemma cleanPrompt_ends s :
  cleanPrompt s ->
  exists c d, head s = Some c /\ list.last s = Some d /\
              isWhiteSpace c = false /\ isWhiteSpace d = false.
Proof.
  intros [Hne Htrim]. rewrite <- Htrim. unfold trim.
  destruct (trimStart_head s) as [E|(c & t & E & Hc)].
  { rewrite <- Htrim in Hne. unfold trim in Hne. by rewrite E in Hne. }
  rewrite E, trimEnd_cons by done. exists c. simpl.
  unfold trimEnd.
  destruct (trimStart_head (rev t)) as [->|(d & u & -> & Hd)].
  - by exists c.
  - exists d. simpl rev. rewrite app_comm_cons, last_snoc. done.
Qed.

(** ** What each event does *)

Lemma handleGenerate_cases idea pageCount st :
  (truthy (trim (default (storyIdea st) idea)) = false /\
   handleGenerate idea pageCount st = st) \/
  (truthy (trim (default (storyIdea st) idea)) = true /\
   handleGenerate idea pageCount st =
   {| storyIdea := storyIdea st; pagesRequested := pagesRequested st;
      isGenerating := true; isDialogOpen := isDialogOpen st;
      activePageIndex := activePageIndex st;
      comicSession := comicSession st;
      inFlight := inFlight st ++
        [{| callStory := trim (default (storyIdea st) idea);
            callCount := default (pagesRequested st) pageCount;
            callSession := comicSession st |}];
      log := log st ++
        [GenerateComic (trim (default (storyIdea st) idea))
           (default (pagesRequested st) pageCount)] |}).
Proof.
  destruct (truthy (trim (default (storyIdea st) idea))) eqn:E.
  - right. split; [done|]. by apply handleGenerate_starts.
  - left. split; [done|]. unfold handleGenerate. by rewrite E.
Qed.

Lemma step_handleGenerate idea pageCount st :
  commit st (handleGenerate idea pageCount st) = handleGenerate idea pageCount st.
Proof.
  destruct (handleGenerate_viewer idea pageCount st) as [Hs Hi].
  by apply commit_no_change.
Qed.

Lemma handleDownload_cases url st :
  handleDownload url st = st \/
  exists session,
    comicSession st = Some session /\ Session.pages session <> [] /\
    handleDownload url st =
    emitAll [CreateObjectURL (exportBlob session) url;
             LinkClick url (downloadName (Session.storyIdea session));
             RevokeObjectURL url] st.
Proof.
  unfold handleDownload. destruct (comicSession st) as [session|]; [|by left].
  destruct (Nat.eqb_spec (length (Session.pages session)) 0) as [|Hn]; [by left|].
  right. exists session. split; [done|]. split.
  - intros Hp. by rewrite Hp in Hn.
  - unfold emit, emitAll; simpl. by rewrite <- !app_assoc.
Qed.

Lemma step_handleDownload exampleStories url st :
  step exampleStories st (ClickExport url) = handleDownload url st.
Proof.
  unfold step. simpl. destruct (handleDownload_viewer url st) as [Hs Hi].
  by apply commit_no_change.
Qed.


Lemma step_change exampleStories st ev :
  Change ev st (step exampleStories st ev).
Proof.
  destruct ev as [value|k|k|count| |k r| |k|url|direction|open|value].
  1, 2, 4, 7, 8, 10, 11:
    match goal with
    | |- Change ?ev _ _ =>
        destruct (step_quiet exampleStories st ev eq_refl) as (? & ? & ? & ?);
        by apply ChangeNothing
    end.
  - (* a quick prompt *)
    unfold step. simpl. destruct (_ !! _) as [story|].
    + rewrite step_handleGenerate.
      destruct (handleGenerate_cases (Some story) None st) as [[_ ->]|[Ht ->]].
      * by apply ChangeNothing.
      * eapply ChangeStarted; simpl; eauto using cleanPrompt_trim.
    + rewrite commit_no_change by done. by apply ChangeNothing.
  - (* the button *)
    unfold step. simpl. destruct (generateDisabled st) eqn:Ed.
    + rewrite commit_no_change by done. by apply ChangeNothing.
    + rewrite step_handleGenerate.
      destruct (handleGenerate_cases None None st) as [[_ ->]|[Ht ->]].
      * by apply ChangeNothing.
      * apply orb_false_iff in Ed as [Ed _].
        eapply ChangeStarted; simpl; eauto using cleanPrompt_trim.
  - (* a settlement *)
    destruct (inFlight st !! k) as [c|] eqn:Ek.
    + destruct r as [comic g now|error].
      * destruct (step_fulfilled exampleStories st k c comic g now Ek)
          as (p & _ & ->).
        by eapply (ChangeFulfilled _ _ _ k c (sessionOf c comic p now)).
      * rewrite (step_rejected exampleStories st k c error Ek).
        by eapply ChangeRejected.
    + unfold step. simpl. rewrite Ek. rewrite commit_no_change by done.
      by apply ChangeNothing.
  - (* an export *)
    rewrite step_handleDownload.
    destruct (handleDownload_cases url st) as [->|(session & Hs & _ & ->)].
    + by apply ChangeNothing.
    + by eapply ChangeExported.
  - (* a store from outside *)
    unfold step. simpl.
    destruct (commit_shape st (storeSession value st)) as (o & i & ->).
    by eapply ChangeStored.
Qed.

(** ** The log of a fulfilled call and of an export *)

Lemma omap_revokes {B} (f : Effect -> option B) us :
  (forall u, f (RevokeObjectURL u) = None) ->
  omap f (map RevokeObjectURL us) = [].
Proof. intros Hf. induction us as [|u us IH]; simpl; [done|]. by rewrite Hf. Qed.

Lemma revokedOf_map_revokes us : revokedOf (map RevokeObjectURL us) = us.
Proof. induction us as [|u us IH]; [done|]. unfold revokedOf in *. simpl. by f_equal. Qed.

Lemma fulfilledLog_reads c new :
  generatorCallsOf (fulfilledLog c new) = [] /\
  installedOf (fulfilledLog c new) = [new] /\
  historyOf (fulfilledLog c new) = [callStory c] /\
  revokedOf (fulfilledLog c new) = sessionBlobs (callSession c) /\
  createdOf (fulfilledLog c new) = [].
Proof.
  unfold fulfilledLog, generatorCallsOf, installedOf, historyOf, createdOf.
  rewrite revokedOf_app, !omap_app, !omap_revokes, revokedOf_map_revokes by done.
  simpl. by rewrite app_nil_r.
Qed.

Lemma Forall_remove_at {A} (P : A -> Prop) k xs :
  Forall P xs -> Forall P (remove_at k xs).
Proof.
  intros H. unfold remove_at. apply Forall_app.
  split; [by apply Forall_take | by apply Forall_drop].
Qed.

(** ** Prompts *)

Lemma step_promptsClean exampleStories st ev :
  promptsClean st -> promptsClean (step exampleStories st ev).
Proof.
  intros (Hg & Hi & Hh & Hf). unfold promptsClean.
  destruct (step_change exampleStories st ev)
    as [_ Hl Hq _ _|v _ Hl Hq _ _|story count _ Hc Hl Hq _ _
       |k c new Hk Hn Hl Hq _ _|k c error Hk Hl Hq _ _|url s _ Hl Hq _ _];
    rewrite Hl, Hq; try done.
  - rewrite generatorCallsOf_app, installedOf_app, historyOf_app. simpl.
    rewrite !app_nil_r. repeat split; try done.
    + apply Forall_app. split; [done|]. by constructor.
    + apply Forall_app. split; [done|]. by constructor.
  - destruct (fulfilledLog_reads c new) as (Eg & Ei & Eh & _).
    rewrite generatorCallsOf_app, installedOf_app, historyOf_app, Eg, Ei, Eh.
    rewrite app_nil_r.
    pose proof (Forall_lookup_1 _ _ _ _ Hf Hk) as Hclean. simpl in Hclean.
    repeat split; try done.
    + apply Forall_app. split; [done|]. constructor; [by rewrite Hn | done].
    + apply Forall_app. split; [done|]. by constructor.
    + by apply Forall_remove_at.
  - rewrite generatorCallsOf_app, installedOf_app, historyOf_app. simpl.
    rewrite !app_nil_r. repeat split; try done. by apply Forall_remove_at.
  - rewrite generatorCallsOf_app, installedOf_app, historyOf_app. simpl.
    rewrite !app_nil_r. done.
Qed.

Lemma step_sessionClean exampleStories st ev :
  promptsClean st -> notContextStore ev ->
  (forall s, comicSession st = Some s -> cleanPrompt (Session.storyIdea s)) ->
  forall s, comicSession (step exampleStories st ev) = Some s ->
            cleanPrompt (Session.storyIdea s).
Proof.
  intros (_ & _ & _ & Hf) Hev Hs s.
  destruct (step_change exampleStories st ev)
    as [_ _ _ _ E|v -> _ _ _ _|story count _ _ _ _ _ E
       |k c new Hk Hn _ _ _ E|k c error _ _ _ _ E|url s' _ _ _ _ E];
    try (rewrite E; by apply Hs); [done|].
  rewrite E. intros [= <-]. rewrite Hn.
  apply (Forall_lookup_1 _ _ _ _ Hf Hk).
Qed.

Lemma run_promptsClean exampleStories evs st :
  promptsClean st -> promptsClean (run exampleStories st evs).
Proof.
  revert st. induction evs as [|ev evs IH]; intros st H; [done|].
  simpl. apply IH. by apply step_promptsClean.
Qed.

Lemma run_sessionClean exampleStories evs st :
  promptsClean st -> Forall notContextStore evs ->
  (forall s, comicSession st = Some s -> cleanPrompt (Session.storyIdea s)) ->
  forall s, comicSession (run exampleStories st evs) = Some s ->
            cleanPrompt (Session.storyIdea s).
Proof.
  revert st. induction evs as [|ev evs IH]; intros st Hp Hevs Hs; [done|].
  inversion Hevs; subst. simpl. apply IH; [|done|].
  - by apply step_promptsClean.
  - by apply step_sessionClean.
Qed.

Lemma mounted_promptsClean session : promptsClean (mounted session).
Proof. repeat split; constructor. Qed.

(** X7: whatever happens on the page, the generator is only ever
    called with a prompt that is not empty and has no white space
    around it, and so are the prompts of the sessions that the page
    installs and the entries it adds to the history; and when the page
    starts without a session and nothing else stores one, the session
    on screen has such a prompt, so that its export is named by its
    slug and never by the default name. *)
Theorem prompts_are_clean
    (exampleStories : list jsstring) (session : option ComicSession)
    (evs : list Event) :
  let st := run exampleStories (mounted session) evs in
  Forall (fun call => cleanPrompt (fst call)) (generatorCallsOf (log st)) /\
  Forall (fun s => cleanPrompt (Session.storyIdea s)) (installedOf (log st)) /\
  Forall cleanPrompt (historyOf (log st)) /\
  (session = None -> Forall notContextStore evs ->
   forall s, comicSession st = Some s ->
     cleanPrompt (Session.storyIdea s) /\
     slug (Session.storyIdea s) <> [] /\
     downloadName (Session.storyIdea s) = slug (Session.storyIdea s) ++ js ".json").
Proof.
  intros st. subst st.
  destruct (run_promptsClean exampleStories evs _ (mounted_promptsClean session))
    as (Hg & Hi & Hh & _).
  split; [done|]. split; [done|]. split; [done|].
  intros -> Hevs s Hs.
  assert (cleanPrompt (Session.storyIdea s)) as Hclean.
  { eapply (run_sessionClean exampleStories evs (mounted None));
      [apply mounted_promptsClean | done | done | done]. }
  split; [done|]. destruct Hclean as [Hne _].
  split.
  - intros H. destruct (slug_nil_iff (Session.storyIdea s)) as [H1 _].
    by apply Hne, H1.
  - unfold downloadName. rewrite safeName_slug. by rewrite decide_False.
Qed.

Lemma prompts_are_clean_witness :
  Forall notContextStore
    [TypeStory (js "  Tom & Jerry!!  "); ClickGenerate;
     GeneratorSettles 0 (Fulfilled eightPages 2%fin 1700000000123)] /\
  let st := run sampleStories (mounted None)
    [TypeStory (js "  Tom & Jerry!!  "); ClickGenerate;
     GeneratorSettles 0 (Fulfilled eightPages 2%fin 1700000000123)] in
  option_map Session.storyIdea (comicSession st) = Some (js "Tom & Jerry!!") /\
  forall s, comicSession st = Some s -> cleanPrompt (Session.storyIdea s).
Proof.
  assert (Forall notContextStore
    [TypeStory (js "  Tom & Jerry!!  "); ClickGenerate;
     GeneratorSettles 0 (Fulfilled eightPages 2%fin 1700000000123)]) as Hevs
    by (by repeat constructor).
  split; [exact Hevs|]. split; [reflexivity|].
  intros s Hs.
  exact (proj1 (proj2 (proj2 (proj2 (prompts_are_clean sampleStories None _)))
                  eq_refl Hevs s Hs)).
Defined.

(** ** One call at a time *)

Lemma singleFlight_lookup st k c :
  singleFlight st -> inFlight st !! k = Some c ->
  inFlight st = [c] /\ remove_at k (inFlight st) = [].
Proof.
  intros [Hlen _] Hk. destruct (inFlight st) as [|c0 [|c1 l]]; simpl in *.
  - done.
  - destruct k as [|k]; simpl in Hk; [|done]. by injection Hk as ->.
  - lia.
Qed.

Lemma singleFlight_idle st :
  singleFlight st -> isGenerating st = false -> inFlight st = [].
Proof.
  intros [_ Hbusy] Hg. destruct (inFlight st) as [|c l] eqn:E; [done|].
  assert (isGenerating st = true) by (by apply Hbusy). congruence.
Qed.

Lemma step_singleFlight exampleStories st ev :
  singleFlight st -> notQuickPrompt ev ->
  singleFlight (step exampleStories st ev).
Proof.
  intros Hinv Hev. unfold singleFlight.
  destruct (step_change exampleStories st ev)
    as [_ _ Hq Hg _|v _ _ Hq Hg _|story count Hwho _ _ Hq Hg _
       |k c new Hk _ _ Hq Hg _|k c error Hk _ Hq Hg _|url s _ _ Hq Hg _];
    rewrite Hq, Hg; try exact Hinv.
  - destruct Hwho as [[-> Hidle]|[k ->]]; [|done].
    rewrite (singleFlight_idle st Hinv Hidle). simpl. split; [lia|done].
  - destruct (singleFlight_lookup st k c Hinv Hk) as [_ ->]. simpl.
    split; [lia|done].
  - destruct (singleFlight_lookup st k c Hinv Hk) as [_ ->]. simpl.
    split; [lia|done].
Qed.

Lemma run_singleFlight exampleStories evs st :
  singleFlight st -> Forall notQuickPrompt evs ->
  singleFlight (run exampleStories st evs).
Proof.
  revert st. induction evs as [|ev evs IH]; intros st H Hevs; [done|].
  inversion Hevs; subst. simpl. apply IH; [|done]. by apply step_singleFlight.
Qed.

Lemma mounted_singleFlight session : singleFlight (mounted session).
Proof. split; simpl; [lia|done]. Qed.

(** X8: as long as no quick prompt is clicked, at most one call of the
    generator is outstanding at any time and the busy flag is set
    exactly while one is; a click on "Generate comic" while one is
    outstanding then changes nothing. *)
Theorem generate_button_is_single_flight
    (exampleStories : list jsstring) (session : option ComicSession)
    (evs : list Event) :
  Forall notQuickPrompt evs ->
  let st := run exampleStories (mounted session) evs in
  (length (inFlight st) <= 1)%nat /\
  (isGenerating st = true <-> inFlight st <> []) /\
  (inFlight st <> [] -> step exampleStories st ClickGenerate = st).
Proof.
  intros Hevs st. subst st.
  pose proof (run_singleFlight exampleStories evs _
                (mounted_singleFlight session) Hevs) as [Hlen Hbusy].
  split; [done|]. split; [done|].
  intros Hne. apply busy_generate_button_is_inert. by apply Hbusy.
Qed.

Lemma generate_button_is_single_flight_witness :
  Forall notQuickPrompt
    [TypeStory (js "Mice aboard the station"); ClickGenerate; ClickGenerate] /\
  let st := run sampleStories (mounted None)
    [TypeStory (js "Mice aboard the station"); ClickGenerate; ClickGenerate] in
  length (inFlight st) = 1%nat /\ isGenerating st = true.
Proof.
  assert (Forall notQuickPrompt
    [TypeStory (js "Mice aboard the station"); ClickGenerate; ClickGenerate])
    as Hevs by (by repeat constructor).
  split; [exact Hevs|].
  destruct (generate_button_is_single_flight sampleStories None _ Hevs)
    as (_ & Hbusy & _).
  split; [reflexivity|]. apply Hbusy. discriminate.
Defined.

(** ** Every blob URL is revoked once *)

Lemma step_accounted exampleStories first st ev :
  singleFlight st -> closuresFresh st -> blobsAccounted first st ->
  notQuickPrompt ev -> notContextStore ev ->
  closuresFresh (step exampleStories st ev) /\
  blobsAccounted first (step exampleStories st ev).
Proof.
  intros Hone Hfresh Hacc Hq Hc. unfold closuresFresh, blobsAccounted in *.
  destruct (step_change exampleStories st ev)
    as [_ Hl Hf _ Hs|v -> _ _ _ _|story count Hwho _ Hl Hf Hg Hs
       |k c new Hk _ Hl Hf _ Hs|k c error Hk Hl Hf _ Hs|url s _ Hl Hf _ Hs];
    try done; rewrite ?Hl, ?Hf, ?Hs.
  - done.
  - destruct Hwho as [[-> Hidle]|[k ->]]; [|done].
    rewrite (singleFlight_idle st Hone Hidle). simpl. split; [by constructor|].
    unfold revokedOf, installedOf, createdOf in *. rewrite !omap_app. simpl.
    by rewrite !app_nil_r.
  - destruct (singleFlight_lookup st k c Hone Hk) as [_ ->].
    split; [constructor|].
    pose proof (Forall_lookup_1 _ _ _ _ Hfresh Hk) as Hsame. simpl in Hsame.
    destruct (fulfilledLog_reads c new) as (_ & Ei & _ & Er & Ec).
    assert (createdOf (log st ++ fulfilledLog c new) = createdOf (log st)) as ->.
    { unfold createdOf in *. rewrite omap_app, Ec. apply app_nil_r. }
    rewrite revokedOf_app, installedOf_app, Er, Ei, Hsame.
    rewrite map_app, concat_app. simpl. rewrite app_nil_r.
    rewrite Hacc. rewrite <- !app_assoc. do 2 f_equiv.
    apply Permutation_app_comm.
  - destruct (singleFlight_lookup st k c Hone Hk) as [_ ->].
    split; [constructor|].
    unfold revokedOf, installedOf, createdOf in *. rewrite !omap_app. simpl.
    by rewrite !app_nil_r.
  - split; [done|].
    unfold revokedOf, installedOf, createdOf in *. rewrite !omap_app. simpl.
    rewrite !app_nil_r, !app_assoc.
    rewrite <- (app_assoc _ [url]).
    rewrite (Permutation_app_comm [url]). rewrite app_assoc, Hacc.
    by rewrite <- !app_assoc.
Qed.

Lemma run_accounted exampleStories first evs st :
  singleFlight st -> closuresFresh st -> blobsAccounted first st ->
  Forall notQuickPrompt evs -> Forall notContextStore evs ->
  blobsAccounted first (run exampleStories st evs).
Proof.
  revert st. induction evs as [|ev evs IH]; intros st H1 H2 H3 Hq Hc; [done|].
  inversion Hq; inversion Hc; subst. simpl.
  destruct (step_accounted exampleStories first st ev) as [? ?]; try done.
  apply IH; try done. by apply step_singleFlight.
Qed.

(** X9: when generation goes through the "Generate comic" button only
    and nothing else stores a session, the blob URLs are accounted
    for: the URLs revoked so far together with the blob URLs of the
    session on screen are, counted as often as they occur, the blob
    URLs of the pages of the session the page started with and of
    every session it installed, and the URLs it created for exports.
    So a URL is revoked once for each page that held it (twice when
    two pages held it), every URL that was held is revoked or belongs
    to the session on screen, and nothing else is revoked; and when
    the URLs that were held are all different, no URL is revoked twice
    and none of the session on screen is revoked. *)
Theorem blob_urls_are_accounted_for
    (exampleStories : list jsstring) (first : option ComicSession)
    (evs : list Event) :
  Forall notQuickPrompt evs -> Forall notContextStore evs ->
  let st := run exampleStories (mounted first) evs in
  let held :=
    sessionBlobs first ++
    concat (map (fun s => blobUrls (Session.pages s)) (installedOf (log st))) ++
    createdOf (log st) in
  revokedOf (log st) ++ sessionBlobs (comicSession st) ≡ₚ held /\
  (forall u, u ∈ held ->
     u ∈ revokedOf (log st) \/ u ∈ sessionBlobs (comicSession st)) /\
  (forall u, u ∈ revokedOf (log st) -> u ∈ held) /\
  (NoDup held ->
   NoDup (revokedOf (log st)) /\
   forall u, u ∈ revokedOf (log st) -> u ∉ sessionBlobs (comicSession st)).
Proof.
  intros Hq Hc st held.
  assert (revokedOf (log st) ++ sessionBlobs (comicSession st) ≡ₚ held) as Hperm.
  { subst st held.
    apply (run_accounted exampleStories first evs (mounted first)); try done.
    - apply mounted_singleFlight.
    - constructor.
    - unfold blobsAccounted. simpl. by rewrite !app_nil_r. }
  split; [done|]. split; [|split].
  - intros u Hu. rewrite <- Hperm in Hu. by apply elem_of_app in Hu.
  - intros u Hu. rewrite <- Hperm. apply elem_of_app. by left.
  - intros Hnd. rewrite <- Hperm in Hnd.
    apply list.NoDup_app in Hnd as (Hr & Hdisj & _). by split.
Qed.

Lemma blob_urls_are_accounted_for_witness :
  Forall notQuickPrompt accountingEvents /\
  Forall notContextStore accountingEvents /\
  let st := run sampleStories (mounted (Some sampleSession)) accountingEvents in
  revokedOf (log st) = [js "blob:a"; js "blob:export"] /\
  sessionBlobs (comicSession st) = [js "blob:b"] /\
  (forall u, u ∈ revokedOf (log st) ->
     u ∈ sessionBlobs (Some sampleSession) ++
         concat (map (fun s => blobUrls (Session.pages s)) (installedOf (log st))) ++
         createdOf (log st)).
Proof.
  assert (Forall notQuickPrompt accountingEvents) as Hq by (by repeat constructor).
  assert (Forall notContextStore accountingEvents) as Hc by (by repeat constructor).
  split; [exact Hq|]. split; [exact Hc|].
  split; [by vm_compute|]. split; [by vm_compute|].
  exact (proj1 (proj2 (proj2 (blob_urls_are_accounted_for sampleStories
                                (Some sampleSession) accountingEvents Hq Hc)))).
Defined.

(** ** The name of the download is a safe file name *)

Lemma isAlnum_lowerUnit c :
  isAlnum c = true -> slugUnit (lowerUnit c) = true /\ lowerUnit c <> dash.
Proof.
  unfold isAlnum, slugUnit, lowerUnit, isDigit, isLower, dash. intros H.
  destruct (isUpper c) eqn:Eu; unfold isUpper in Eu.
  - apply andb_true_iff in Eu as [H1 H2]. apply N.leb_le in H1, H2.
    split; [|lia]. apply orb_true_iff. left. apply orb_true_iff. left.
    apply andb_true_iff. split; apply N.leb_le; lia.
  - rewrite orb_false_r in H. split.
    + by rewrite orb_comm with (b1 := (97 <=? c)%N && (c <=? 122)%N), H.
    + apply orb_true_iff in H as [H|H]; apply andb_true_iff in H as [H1 H2];
        apply N.leb_le in H1, H2; lia.
Qed.

Lemma slugUnit_cases c :
  slugUnit c = true -> (isAlnum c = true /\ lowerUnit c = c) \/ c = dash.
Proof.
  unfold slugUnit. intros H. apply orb_true_iff in H as [H|H].
  - left. unfold isAlnum, lowerUnit.
    assert (isUpper c = false) as ->.
    { unfold isUpper, isLower, isDigit in *. apply andb_false_iff.
      apply orb_true_iff in H as [H|H]; apply andb_true_iff in H as [H1 H2];
        apply N.leb_le in H1, H2;
        [right|left]; apply N.leb_gt; lia. }
    split; [|done]. rewrite orb_false_r.
    by rewrite orb_comm.
  - right. by apply N.eqb_eq.
Qed.

Lemma noDoubleDash_cons a r :
  noDoubleDash (a :: r) <-> (a = dash -> head r <> Some dash) /\ noDoubleDash r.
Proof.
  destruct r as [|b r]; simpl.
  - split; [by split | done].
  - split.
    + intros [H1 H2]. split; [|done]. intros -> [= ->]. by apply H1.
    + intros [H1 H2]. split; [|done]. intros [-> ->]. by apply H1.
Qed.

Lemma replaceRunsFrom_safe inRun s :
  let r := toLowerCase (replaceRunsFrom inRun s) in
  Forall (fun c => slugUnit c = true) r /\ noDoubleDash r /\
  (inRun = true -> head r <> Some dash) /\
  (length r <= length s)%nat.
Proof.
  revert inRun. induction s as [|c s IH]; intros inRun; simpl.
  { by repeat split. }
  destruct (isAlnum c) eqn:Ec.
  - destruct (IH false) as (Hu & Hd & _ & Hl).
    destruct (isAlnum_lowerUnit c Ec) as [Hc Hne]. simpl.
    split; [by constructor|]. split; [|split; [|lia]].
    + apply noDoubleDash_cons. by split.
    + intros _ [= H]. done.
  - destruct inRun.
    + destruct (IH true) as (Hu & Hd & Hh & Hl). repeat split; auto with lia.
    + destruct (IH true) as (Hu & Hd & Hh & Hl). simpl.
      split; [by constructor|]. split; [|split; [done|lia]].
      apply noDoubleDash_cons. split; [|done]. intros _. by apply Hh.
Qed.

Lemma replaceRunsFrom_fixed s :
  Forall (fun c => slugUnit c = true) s -> noDoubleDash s ->
  toLowerCase s = s /\
  replaceRunsFrom false s = s /\
  (head s <> Some dash -> replaceRunsFrom true s = s).
Proof.
  induction s as [|c s IH]; intros Hu Hd; [done|].
  inversion Hu as [|? ? Hc Hs]; subst.
  apply noDoubleDash_cons in Hd as [Hhead Hd].
  destruct (IH Hs Hd) as (Hlow & Hf & Ht). simpl.
  destruct (slugUnit_cases c Hc) as [[Ha Hl]| ->].
  - rewrite Ha, Hl, Hlow, Hf. done.
  - change (isAlnum dash) with false. change (lowerUnit dash) with dash.
    rewrite Hlow, (Ht (Hhead eq_refl)). repeat split. intros H. by destruct H.
Qed.

(** X10: whatever the prompt, the name that [handleDownload] builds
    is not empty, holds nothing but lower-case ASCII letters, digits
    and "-", never two "-" in a row, is no longer than the prompt (or
    than the five letters of the default name), and is its own slug:
    building the name of a name changes nothing. *)
Theorem safe_name_is_file_safe (prompt : jsstring) :
  safeName prompt <> [] /\
  Forall (fun c => slugUnit c = true) (safeName prompt) /\
  noDoubleDash (safeName prompt) /\
  (length (safeName prompt) <= Nat.max (length prompt) 5)%nat /\
  safeName (safeName prompt) = safeName prompt.
Proof.
  destruct (replaceRunsFrom_safe false prompt) as (Hu & Hd & _ & Hl).
  assert ((safeName prompt = js "comic" /\ safeName (js "comic") = js "comic") \/
          (safeName prompt = toLowerCase (replaceRunsFrom false prompt) /\
           safeName prompt <> [])) as [[-> Hc]|[Hr Hne]].
  { unfold safeName at 1 3 4, replaceNonAlnumRuns, or_else.
    destruct (toLowerCase (replaceRunsFrom false prompt)); [by left | by right]. }
  - split; [done|]. split; [by repeat constructor|]. split.
    + vm_compute. repeat split; intros [H _]; discriminate H.
    + split; [|done]. change (length (js "comic")) with 5%nat. lia.
  - rewrite Hr in *. split; [done|]. split; [done|]. split; [done|].
    split; [lia|].
    unfold safeName, replaceNonAlnumRuns, or_else.
    destruct (replaceRunsFrom_fixed _ Hu Hd) as (Hlow & Hf & _).
    rewrite Hf, Hlow.
    by destruct (toLowerCase (replaceRunsFrom false prompt)).
Qed.

(** ** The release of the pages of a session *)

(** X11: [releaseSessionResources] of [null] does nothing; of a
    session it calls [URL.revokeObjectURL] once for each page whose
    [imageUrl] starts with "blob:", in the order of the pages, for no
    other URL, and changes nothing but the log. *)
Theorem release_revokes_blob_urls_only (value : option ComicSession) (st : State) :
  let st' := releaseSessionResources value st in
  (value = None -> st' = st) /\
  st' = emitAll (map RevokeObjectURL (sessionBlobs value)) st /\
  revokedOf (log st') = revokedOf (log st) ++ sessionBlobs value /\
  (forall v, value = Some v ->
     length (sessionBlobs value) =
       length (filter (fun page => isBlobUrl (imageUrl page) = true) (Session.pages v)) /\
     forall u, u ∈ sessionBlobs value <->
               exists page, page ∈ Session.pages v /\ imageUrl page = u /\
                            isBlobUrl u = true).
Proof.
  intros st'. subst st'. split; [by intros ->|].
  rewrite releaseSessionResources_spec. fold (sessionBlobs value).
  split; [done|]. split.
  - simpl. by rewrite revokedOf_app, revokedOf_map_revokes.
  - intros v ->. simpl. unfold blobUrls. split.
    + induction (Session.pages v) as [|p ps IH]; [done|]. simpl.
      rewrite !filter_cons. destruct (isBlobUrl (imageUrl p)) eqn:E.
      * rewrite !decide_True by done. simpl. by rewrite IH.
      * by rewrite !decide_False by done.
    + intros u. rewrite list_elem_of_filter, list_elem_of_fmap. split.
      * intros (Hb & page & -> & Hp). by exists page.
      * intros (page & Hp & <- & Hb). split; [done|]. by exists page.
Qed.

Lemma release_revokes_blob_urls_only_witness :
  Some sampleSession = Some sampleSession /\
  revokedOf (log (releaseSessionResources (Some sampleSession) (mounted None)))
  = [js "blob:a"] /\
  length (sessionBlobs (Some sampleSession)) = 1%nat.
Proof.
  split; [reflexivity|].
  destruct (release_revokes_blob_urls_only (Some sampleSession) (mounted None))
    as (_ & _ & Hr & Hv).
  split; [exact Hr|]. exact (proj1 (Hv sampleSession eq_refl)).
Defined.

(** ** One generation from the click to the new session *)

Lemma single_generation_releases_previous_witness :
  inFlight (mounted (Some sampleSession)) = [] /\
  truthy (trim (js " Mice aboard the station ")) = true /\
  exists new,
    comicSession
      (run sampleStories
         (handleGenerate (Some (js " Mice aboard the station ")) None
            (mounted (Some sampleSession)))
         [GeneratorSettles 0 (Fulfilled [samplePage 1 (js "blob:b")] 3%fin 1700000000100)])
    = Some new /\
    Session.pages new = [samplePage 1 (js "blob:b")].
Proof.
  split; [reflexivity|]. split; [reflexivity|].
  destruct (single_generation_releases_previous sampleStories
              (mounted (Some sampleSession)) (Some (js " Mice aboard the station "))
              None [samplePage 1 (js "blob:b")] 3%fin 1700000000100 eq_refl eq_refl)
    as (new & Hs & Hp & _).
  exists new. exact (conj Hs Hp).
Defined.
